(** * CwaWeather-backend: the forecast handler of [src/server.js]

    A shallow embedding of [getTaitungWeather] (server.js, lines 25-163)
    and the properties of its normalisation and fallback logic.

    The handler works on whatever JSON document the upstream service
    returns, so the document is modelled as an untyped JavaScript value and
    every property read, truthiness test, strict comparison and string
    concatenation of the source is written with the ECMAScript meaning it
    has on such values.  A read that raises [TypeError] in JavaScript
    raises it here.

    The handler is given twice: as functions on immutable trees
    ([Server]), on which most properties are stated, and, for the
    normalisation of lines 69-139, as a program on a heap of objects
    ([Heap]) whose results are proved to be those of the functions on
    trees.  The last part ([Behaviour]) is about the handler as a whole:
    which responses it can send, what the forecast list owes to the
    document, and what happens on documents it does not expect. *)

From Stdlib Require Import List String Ascii ZArith NArith Bool Lia.
From Stdlib Require Import DecimalString.
Import ListNotations.

Open Scope string_scope.
Open Scope list_scope.

#[local] Set Warnings "-register-all".

(* ================================================================== *)
(** ** JavaScript values *)
(* ================================================================== *)

Module JS.

(** A JavaScript string is a sequence of UTF-16 code units. *)
Definition jsstring := list N.

(** Literals are written as Rocq strings (UTF-8 bytes in the source file)
    and decoded to code units. *)
Fixpoint utf16_of_bytes (bs : list N) : list N :=
  match bs with
  | [] => []
  | b0 :: r0 =>
    if (b0 <? 0x80)%N then b0 :: utf16_of_bytes r0
    else if (b0 <? 0xE0)%N then
      match r0 with
      | b1 :: r1 => ((b0 - 0xC0) * 64 + (b1 - 0x80))%N :: utf16_of_bytes r1
      | _ => []
      end
    else if (b0 <? 0xF0)%N then
      match r0 with
      | b1 :: b2 :: r2 =>
          ((b0 - 0xE0) * 4096 + (b1 - 0x80) * 64 + (b2 - 0x80))%N
            :: utf16_of_bytes r2
      | _ => []
      end
    else
      match r0 with
      | b1 :: b2 :: b3 :: r3 =>
          let cp := ((b0 - 0xF0) * 262144 + (b1 - 0x80) * 4096
                     + (b2 - 0x80) * 64 + (b3 - 0x80) - 0x10000)%N in
          (0xD800 + cp / 1024)%N :: (0xDC00 + cp mod 1024)%N
            :: utf16_of_bytes r3
      | _ => []
      end
  end.

Definition utf16 (s : string) : jsstring :=
  utf16_of_bytes (map N_of_ascii (list_ascii_of_string s)).

Coercion utf16 : string >-> jsstring.

Definition str_eqb (s t : jsstring) : bool :=
  if list_eq_dec N.eq_dec s t then true else false.

(** Values as [JSON.parse] builds them, plus [undefined], which every read
    of a missing property yields.  A number is an integer-valued double
    (of magnitude at most 2^53); documents with fractional numbers are not
    represented.  An object keeps its properties in insertion order. *)
Inductive value : Type :=
| VUndefined
| VNull
| VBool (b : bool)
| VNum (n : Z)
| VStr (s : jsstring)
| VArr (elems : list value)
| VObj (props : list (jsstring * value)).

(** What a JavaScript evaluation can throw in this program. [AxiosError]
    is the rejection of [axios.get]; its [response] is present when the
    upstream service answered with a status outside 2xx. *)
Inductive exn : Type :=
| TypeError
| Error (message : jsstring)
| AxiosError (response : option (Z * value)).

(** Result of evaluating an expression.  [Unmodelled] marks the one
    conversion this development does not define: [ToNumber] of a string,
    whose result is a double (see [loop_trips]). *)
Inductive result (A : Type) : Type :=
| Ok (a : A)
| Throw (e : exn)
| Unmodelled.

Arguments Ok {A} a.
Arguments Throw {A} e.
Arguments Unmodelled {A}.

Definition bind {A B} (m : result A) (k : A -> result B) : result B :=
  match m with
  | Ok a => k a
  | Throw e => Throw e
  | Unmodelled => Unmodelled
  end.

Notation "x <- m ;; k" := (bind m (fun x => k))
  (at level 61, m at next level, right associativity).

(** [ToBoolean]: the operand of [!], [||], [&&] and [if]. *)
Definition truthy (v : value) : bool :=
  match v with
  | VUndefined | VNull => false
  | VBool b => b
  | VNum n => negb (n =? 0)%Z
  | VStr s => match s with [] => false | _ => true end
  | VArr _ | VObj _ => true
  end.

(** [v === "literal"]. *)
Definition strict_eq_str (v : value) (lit : jsstring) : bool :=
  match v with
  | VStr s => str_eqb s lit
  | _ => false
  end.

(** Own property of an object, [undefined] when there is none. *)
Fixpoint lookup (k : jsstring) (props : list (jsstring * value)) : value :=
  match props with
  | [] => VUndefined
  | (k', v) :: rest => if str_eqb k' k then v else lookup k rest
  end.

Definition has_own (k : jsstring) (props : list (jsstring * value)) : bool :=
  existsb (fun kv => str_eqb (fst kv) k) props.

Definition decimal (z : Z) : jsstring :=
  utf16 (NilZero.string_of_int (Z.to_int z)).

Definition nullish (v : value) : bool :=
  match v with
  | VUndefined | VNull => true
  | _ => false
  end.

Definition is_object (v : value) : bool :=
  match v with
  | VObj _ => true
  | _ => false
  end.

(** [v.k] for the property names the handler reads ([records],
    [locations], [location], [locationName], [issueTime],
    [weatherElement], [elementName], [time], [startTime], [endTime],
    [parameter], [parameterName], [message], [length]): none of them is
    inherited from a prototype, except [length] of arrays and strings. *)
Definition get (k : jsstring) (v : value) : result value :=
  match v with
  | VUndefined | VNull => Throw TypeError
  | VBool _ | VNum _ => Ok VUndefined
  | VStr s =>
      Ok (if str_eqb k "length" then VNum (Z.of_nat (List.length s))
          else VUndefined)
  | VArr l =>
      Ok (if str_eqb k "length" then VNum (Z.of_nat (List.length l))
          else VUndefined)
  | VObj props => Ok (lookup k props)
  end.

(** [v[i]] for a non-negative integer [i]. *)
Definition index (i : nat) (v : value) : result value :=
  match v with
  | VUndefined | VNull => Throw TypeError
  | VBool _ | VNum _ => Ok VUndefined
  | VStr s =>
      Ok (match nth_error s i with Some c => VStr [c] | None => VUndefined end)
  | VArr l =>
      Ok (match nth_error l i with Some x => x | None => VUndefined end)
  | VObj props => Ok (lookup (decimal (Z.of_nat i)) props)
  end.

(** Separator-joined concatenation, as [Array.prototype.join] does it. *)
Fixpoint join (sep : jsstring) (parts : list jsstring) : jsstring :=
  match parts with
  | [] => []
  | [p] => p
  | p :: rest => p ++ sep ++ join sep rest
  end.

Fixpoint sequence {A} (ms : list (result A)) : result (list A) :=
  match ms with
  | [] => Ok []
  | m :: rest => x <- m ;; xs <- sequence rest ;; Ok (x :: xs)
  end.

(** [ToString(ToPrimitive(v))], the conversion [v + "literal"] applies to
    its left operand.  An array converts through [join]; a parsed object
    converts to ["[object Object]"] unless it has an own (hence
    non-callable) [toString] property, in which case no conversion method
    is left and a [TypeError] is thrown. *)
Fixpoint to_string (v : value) : result jsstring :=
  match v with
  | VUndefined => Ok (utf16 "undefined")
  | VNull => Ok (utf16 "null")
  | VBool true => Ok (utf16 "true")
  | VBool false => Ok (utf16 "false")
  | VNum n => Ok (decimal n)
  | VStr s => Ok s
  | VArr l =>
      parts <- sequence
                 (map (fun e => if nullish e then Ok [] else to_string e) l) ;;
      Ok (join "," parts)
  | VObj props =>
      if has_own "toString" props then Throw TypeError
      else Ok (utf16 "[object Object]")
  end.

(** [v + "literal"]. *)
Definition add_str (v : value) (lit : jsstring) : result jsstring :=
  s <- to_string v ;; Ok (s ++ lit).

(** [Array.prototype.find] with a callback that may throw. *)
Fixpoint find_in (p : value -> result bool) (l : list value) : result value :=
  match l with
  | [] => Ok VUndefined
  | x :: rest => b <- p x ;; if b then Ok x else find_in p rest
  end.

(** [v.find(p)]: only an array has a callable [find]. *)
Definition find (p : value -> result bool) (v : value) : result value :=
  match v with
  | VArr l => find_in p l
  | _ => Throw TypeError
  end.

(** [Array.prototype.forEach] with a callback that updates a local object
    of type [S] and may throw. *)
Fixpoint forEach_in {S} (f : value -> S -> result S) (l : list value) (s : S)
  : result S :=
  match l with
  | [] => Ok s
  | x :: rest => s' <- f x s ;; forEach_in f rest s'
  end.

(** [v.forEach(f)]: only an array has a callable [forEach]. *)
Definition forEach {S} (f : value -> S -> result S) (v : value) (s : S)
  : result S :=
  match v with
  | VArr l => forEach_in f l s
  | _ => Throw TypeError
  end.

(** Number of iterations of [for (let i = 0; i < bound; i++)]: the least
    [i] for which [i < bound] is false.  [bound] is converted with
    [ToNumber]: [undefined] gives NaN, [null] and [false] give 0, [true]
    gives 1, an object gives NaN through ["[object Object]"].  A string
    (or an array, which converts to one) would be parsed as a numeric
    literal and rounded to a double. *)
Definition loop_trips (bound : value) : result nat :=
  match bound with
  | VUndefined | VNull => Ok 0
  | VBool b => Ok (if b then 1 else 0)
  | VNum n => Ok (Z.to_nat n)
  | VStr _ => Unmodelled
  | VArr _ => _ <- to_string bound ;; Unmodelled
  | VObj _ => _ <- to_string bound ;; Ok 0
  end.

(** Nesting depth of a tree. *)
Fixpoint depth (v : value) : nat :=
  match v with
  | VArr l => S (fold_right Nat.max 0 (map depth l))
  | VObj p => S (fold_right Nat.max 0 (map (fun kv => depth (snd kv)) p))
  | _ => 0
  end.

(** Induction on values, through the lists of array elements and object
    properties. *)
Section ValueInduction.
Variable P : value -> Prop.
Hypothesis Hundefined : P VUndefined.
Hypothesis Hnull : P VNull.
Hypothesis Hbool : forall b, P (VBool b).
Hypothesis Hnum : forall n, P (VNum n).
Hypothesis Hstr : forall s, P (VStr s).
Hypothesis Harr : forall l, Forall P l -> P (VArr l).
Hypothesis Hobj : forall p, Forall (fun kv => P (snd kv)) p -> P (VObj p).

Fixpoint value_ind_nested (v : value) : P v :=
  match v with
  | VUndefined => Hundefined
  | VNull => Hnull
  | VBool b => Hbool b
  | VNum n => Hnum n
  | VStr s => Hstr s
  | VArr l =>
      Harr l ((fix all (l : list value) : Forall P l :=
                 match l with
                 | [] => Forall_nil P
                 | x :: rest =>
                     Forall_cons x (value_ind_nested x) (all rest)
                 end) l)
  | VObj p =>
      Hobj p ((fix all (p : list (jsstring * value))
               : Forall (fun kv => P (snd kv)) p :=
                 match p with
                 | [] => Forall_nil _
                 | (k, x) :: rest =>
                     Forall_cons (k, x) (value_ind_nested x) (all rest)
                 end) p)
  end.
End ValueInduction.

End JS.

(* ================================================================== *)
(** ** The handler *)
(* ================================================================== *)

Module Server.
Import JS.

(** One element of [weatherData.forecasts] (server.js, lines 87-96).
    [rain], [minTemp] and [maxTemp] only ever hold the empty literal or the
    result of a string concatenation. *)
Record forecast : Type := mkForecast {
  startTime : value;
  endTime : value;
  weather : value;
  rain : jsstring;
  minTemp : jsstring;
  maxTemp : jsstring;
  comfort : value;
  windSpeed : value
}.

Definition set_weather (v : value) (fc : forecast) : forecast :=
  mkForecast (startTime fc) (endTime fc) v (rain fc) (minTemp fc)
             (maxTemp fc) (comfort fc) (windSpeed fc).
Definition set_rain (s : jsstring) (fc : forecast) : forecast :=
  mkForecast (startTime fc) (endTime fc) (weather fc) s (minTemp fc)
             (maxTemp fc) (comfort fc) (windSpeed fc).
Definition set_minTemp (s : jsstring) (fc : forecast) : forecast :=
  mkForecast (startTime fc) (endTime fc) (weather fc) (rain fc) s
             (maxTemp fc) (comfort fc) (windSpeed fc).
Definition set_maxTemp (s : jsstring) (fc : forecast) : forecast :=
  mkForecast (startTime fc) (endTime fc) (weather fc) (rain fc) (minTemp fc)
             s (comfort fc) (windSpeed fc).
Definition set_comfort (v : value) (fc : forecast) : forecast :=
  mkForecast (startTime fc) (endTime fc) (weather fc) (rain fc) (minTemp fc)
             (maxTemp fc) v (windSpeed fc).
Definition set_windSpeed (v : value) (fc : forecast) : forecast :=
  mkForecast (startTime fc) (endTime fc) (weather fc) (rain fc) (minTemp fc)
             (maxTemp fc) (comfort fc) v.

(** The object built at lines 69-74 and filled by the loop. *)
Record weatherData : Type := mkWeatherData {
  city : value;
  updateTime : value;
  forecasts : list forecast
}.

(** The JSON bodies the handler sends: [{error, message}] with optional
    [details], or [{success: true, data}]. *)
Inductive body : Type :=
| ErrorBody (error : jsstring) (message : value) (details : option value)
| SuccessBody (data : weatherData).

Record response : Type := mkResponse {
  status : Z;
  payload : body
}.

(** Lines 99-103 of the [forEach] callback: the [parameterName] of the
    element's [i]-th time entry, or [None] where the callback returns
    early because the entry or its [parameter] is missing. *)
Definition entryValue (i : nat) (element : value) : result (option value) :=
  time <- get "time" element ;;
  timeEntry <- index i time ;;
  if negb (truthy timeEntry) then Ok None else
  parameter <- get "parameter" timeEntry ;;
  if negb (truthy parameter) then Ok None else
  value <- get "parameterName" parameter ;;
  Ok (Some value).

(** The [switch] on [element.elementName] (lines 105-123), acting on the
    local object [forecast]. *)
Definition dispatch (element value : value) (fc : forecast)
  : result forecast :=
  elementName <- get "elementName" element ;;
  if strict_eq_str elementName "Wx" then Ok (set_weather value fc)
  else if strict_eq_str elementName "PoP6h" then
    r <- add_str value "%" ;; Ok (set_rain r fc)
  else if strict_eq_str elementName "T" then
    lo <- add_str value "°C" ;;
    hi <- add_str value "°C" ;;
    Ok (set_maxTemp hi (set_minTemp lo fc))
  else if strict_eq_str elementName "CI" then Ok (set_comfort value fc)
  else if strict_eq_str elementName "Ws" then Ok (set_windSpeed value fc)
  else Ok fc.

(** The callback of [weatherElements.forEach] (lines 98-124) at time index
    [i]. *)
Definition processElement (i : nat) (element : value) (fc : forecast)
  : result forecast :=
  v <- entryValue i element ;;
  match v with
  | None => Ok fc
  | Some value => dispatch element value fc
  end.

(** [e => e.elementName === name], the callback of the two [find] calls
    on the element list. *)
Definition named (name : jsstring) (e : value) : result bool :=
  n <- get "elementName" e ;; Ok (strict_eq_str n name).

(** The precipitation fallback (lines 126-135). *)
Definition rainFallback (weatherElements : value) (i : nat) (fc : forecast)
  : result forecast :=
  if negb (truthy (VStr (rain fc))) then
    pop12hElement <- find (named "PoP12h") weatherElements ;;
    entry <- (if truthy pop12hElement
              then time <- get "time" pop12hElement ;; index i time
              else Ok pop12hElement) ;;
    if truthy entry then
      time <- get "time" pop12hElement ;;
      timeEntry <- index i time ;;
      parameter <- get "parameter" timeEntry ;;
      popValue <- get "parameterName" parameter ;;
      r <- add_str popValue "%" ;;
      Ok (set_rain r fc)
    else Ok (set_rain "0%" fc)
  else Ok fc.

(** The object literal of lines 87-96. *)
Definition initialForecast (wxElement : value) (i : nat) : result forecast :=
  time <- get "time" wxElement ;;
  entry <- index i time ;;
  start <- get "startTime" entry ;;
  time' <- get "time" wxElement ;;
  entry' <- index i time' ;;
  stop <- get "endTime" entry' ;;
  Ok (mkForecast start stop (VStr "") "" "" "" (VStr "") (VStr "")).

(** One iteration of the loop (lines 87-138): the forecast pushed for time
    index [i]. *)
Definition forecastAt (weatherElements wxElement : value) (i : nat)
  : result forecast :=
  fc <- initialForecast wxElement i ;;
  fc <- forEach (processElement i) weatherElements fc ;;
  rainFallback weatherElements i fc.

(** [for (let i = 0; i < timeCount; i++) { ...; forecasts.push(forecast) }]
    from index [i] on, with [trips] iterations left. *)
Fixpoint for_loop (iteration : nat -> result forecast) (trips i : nat)
                  (pushed : list forecast) : result (list forecast) :=
  match trips with
  | O => Ok pushed
  | S trips' =>
      fc <- iteration i ;;
      for_loop iteration trips' (S i) (pushed ++ [fc])
  end.

(** Lines 69-139: the normalisation of the selected township. *)
Definition normalize (records taitungCityData : value) : result weatherData :=
  name <- get "locationName" taitungCityData ;;
  issueTime <- get "issueTime" records ;;
  let updated := if truthy issueTime then issueTime
                 else VStr "未知發布時間" in
  weatherElements <- get "weatherElement" taitungCityData ;;
  wxElement <- find (named "Wx") weatherElements ;;
  if negb (truthy wxElement) then Throw (Error "缺少 Wx 天氣要素") else
  time <- get "time" wxElement ;;
  timeCount <- get "length" time ;;
  trips <- loop_trips timeCount ;;
  pushed <- for_loop (forecastAt weatherElements wxElement) trips 0 [] ;;
  Ok (mkWeatherData name updated pushed).

Definition notFound (msg : jsstring) : response :=
  mkResponse 404 (ErrorBody "查無資料" (VStr msg) None).

(** [(loc) => loc.locationName === "臺東市"] (line 58). *)
Definition isTaitungCity (loc : value) : result bool :=
  n <- get "locationName" loc ;; Ok (strict_eq_str n "臺東市").

(** Lines 57-59: [location.find(...) || location[0]]. *)
Definition selectTownship (location : value) : result value :=
  found <- find isTaitungCity location ;;
  if truthy found then Ok found else index 0 location.

(** Where lines 46-66 leave the handler: an early 404, or a township to
    normalise together with [response.data.records]. *)
Inductive located : Type :=
| NoData (r : response)
| Township (records taitungCityData : value).

(** Lines 46-66, on [response.data]. *)
Definition locate (data : value) : result located :=
  records <- get "records" data ;;
  locations <- get "locations" records ;;
  locationDataContainer <- index 0 locations ;;
  if negb (truthy locationDataContainer)
  then Ok (NoData (notFound "無法取得臺東縣鄉鎮天氣資料")) else
  location <- get "location" locationDataContainer ;;
  if negb (truthy location)
  then Ok (NoData (notFound "無法取得臺東縣鄉鎮天氣資料")) else
  taitungCityData <- selectTownship location ;;
  if negb (truthy taitungCityData)
  then Ok (NoData (notFound "無法取得臺東市天氣資料")) else
  Ok (Township records taitungCityData).

(** The [try] block after the request has resolved (lines 46-144). *)
Definition try_block (data : value) : result response :=
  l <- locate data ;;
  match l with
  | NoData r => Ok r
  | Township records taitungCityData =>
      data <- normalize records taitungCityData ;;
      Ok (mkResponse 200 (SuccessBody data))
  end.

(** How a request ends: a response was sent, the [async] handler rejected
    with an error thrown inside [catch], or the evaluation left the
    modelled fragment. *)
Inductive outcome : Type :=
| Responded (r : response)
| Uncaught (e : exn)
| NotModelled.

(** The [catch] block (lines 145-162). *)
Definition catch_block (error : exn) : outcome :=
  match error with
  | AxiosError (Some (code, data)) =>
      match get "message" data with
      | Ok m =>
          Responded
            (mkResponse code
               (ErrorBody "CWA API 錯誤"
                  (if truthy m then m else VStr "無法取得天氣資料")
                  (Some data)))
      | Throw e => Uncaught e
      | Unmodelled => NotModelled
      end
  | _ =>
      Responded
        (mkResponse 500
           (ErrorBody "伺服器錯誤" (VStr "無法取得天氣資料，請稍後再試") None))
  end.

(** Settlement of the promise returned by [axios.get]. *)
Inductive axios_result : Type :=
| Resolved (data : value)
| Rejected (response : option (Z * value)).

(** A run of the handler: it ends, or it issues an outbound GET and goes on
    with what the request settles to. *)
Inductive run : Type :=
| Done (o : outcome)
| AxiosGet (url : jsstring) (params : list (jsstring * value))
           (k : axios_result -> run).

Definition CWA_API_BASE_URL : jsstring := "https://opendata.cwa.gov.tw/api".

(** [process.env.CWA_API_KEY]: a string, or [undefined] when unset. *)
Definition env_value (var : option jsstring) : value :=
  match var with
  | Some s => VStr s
  | None => VUndefined
  end.

Definition after_request (settled : axios_result) : outcome :=
  match settled with
  | Resolved data =>
      match try_block data with
      | Ok r => Responded r
      | Throw e => catch_block e
      | Unmodelled => NotModelled
      end
  | Rejected resp => catch_block (AxiosError resp)
  end.

(** [getTaitungWeather] (lines 25-163). *)
Definition getTaitungWeather (CWA_API_KEY : option jsstring) : run :=
  if negb (truthy (env_value CWA_API_KEY)) then
    Done (Responded
            (mkResponse 500
               (ErrorBody "伺服器設定錯誤"
                  (VStr "請在 .env 檔案中設定 CWA_API_KEY") None)))
  else
    AxiosGet (CWA_API_BASE_URL ++ utf16 "/v1/rest/datastore/F-D0047-091")
             [(utf16 "Authorization", env_value CWA_API_KEY)]
             (fun settled => Done (after_request settled)).

(** Running a handler against an upstream service: the URLs requested, in
    order, and the outcome. *)
Fixpoint exec (upstream : jsstring -> axios_result) (r : run)
  : list jsstring * outcome :=
  match r with
  | Done o => ([], o)
  | AxiosGet url _ k =>
      let (urls, o) := exec upstream (k (upstream url)) in (url :: urls, o)
  end.

(** GET /api/weather/taitung (line 181). *)
Definition serve (CWA_API_KEY : option jsstring)
                 (upstream : jsstring -> axios_result)
  : list jsstring * outcome :=
  exec upstream (getTaitungWeather CWA_API_KEY).

(** The JSON value a forecast record stands for. *)
Definition forecastValue (fc : forecast) : value :=
  VObj [(utf16 "startTime", startTime fc); (utf16 "endTime", endTime fc);
        (utf16 "weather", weather fc); (utf16 "rain", VStr (rain fc));
        (utf16 "minTemp", VStr (minTemp fc));
        (utf16 "maxTemp", VStr (maxTemp fc));
        (utf16 "comfort", comfort fc); (utf16 "windSpeed", windSpeed fc)].

(** The JSON value of [weatherData], as [res.json] serialises it. *)
Definition weatherDataValue (wd : weatherData) : value :=
  VObj [(utf16 "city", city wd); (utf16 "updateTime", updateTime wd);
        (utf16 "forecasts", VArr (map forecastValue (forecasts wd)))].

End Server.

(* ================================================================== *)
(** ** The normalisation on a heap of objects *)
(* ================================================================== *)

(** The same lines 69-139 with objects held by reference: the parsed
    document lives in heap cells, the object and array literals of the
    handler allocate new cells, and an assignment or a [push] writes the
    cell its target refers to. *)

Module Heap.
Import JS.

(** A value as a variable holds it: a primitive, or a reference to an
    object or array of the heap. *)
Inductive hval : Type :=
| HUndefined
| HNull
| HBool (b : bool)
| HNum (n : Z)
| HStr (s : jsstring)
| HRef (address : nat).

Inductive cell : Type :=
| CArr (elems : list hval)
| CObj (props : list (jsstring * hval)).

(** The heap: the cell of address [a] is the [a]-th of the list;
    allocation appends. *)
Definition heap := list cell.

(** Computations that read and write the heap and may throw. *)
Definition M (A : Type) : Type := heap -> result A * heap.

Definition ret {A} (a : A) : M A := fun h => (Ok a, h).

Definition throw {A} (e : exn) : M A := fun h => (Throw e, h).

Definition mbind {A B} (m : M A) (k : A -> M B) : M B :=
  fun h =>
    match m h with
    | (Ok a, h') => k a h'
    | (Throw e, h') => (Throw e, h')
    | (Unmodelled, h') => (Unmodelled, h')
    end.

Notation "x <-- m ;; k" := (mbind m (fun x => k))
  (at level 61, m at next level, right associativity).

(** A read: the heap is left as it is. *)
Definition reading {A} (f : heap -> result A) : M A := fun h => (f h, h).

Definition htruthy (v : hval) : bool :=
  match v with
  | HUndefined | HNull => false
  | HBool b => b
  | HNum n => negb (n =? 0)%Z
  | HStr s => match s with [] => false | _ => true end
  | HRef _ => true
  end.

Definition hstrict_eq_str (v : hval) (lit : jsstring) : bool :=
  match v with
  | HStr s => str_eqb s lit
  | _ => false
  end.

Fixpoint hlookup (k : jsstring) (props : list (jsstring * hval)) : hval :=
  match props with
  | [] => HUndefined
  | (k', v) :: rest => if str_eqb k' k then v else hlookup k rest
  end.

(** [v.k] *)
Definition get_in (h : heap) (k : jsstring) (v : hval) : result hval :=
  match v with
  | HUndefined | HNull => Throw TypeError
  | HBool _ | HNum _ => Ok HUndefined
  | HStr s =>
      Ok (if str_eqb k "length" then HNum (Z.of_nat (List.length s))
          else HUndefined)
  | HRef a =>
      match nth_error h a with
      | Some (CArr l) =>
          Ok (if str_eqb k "length" then HNum (Z.of_nat (List.length l))
              else HUndefined)
      | Some (CObj props) => Ok (hlookup k props)
      | None => Unmodelled
      end
  end.

(** [v[i]] *)
Definition index_in (h : heap) (i : nat) (v : hval) : result hval :=
  match v with
  | HUndefined | HNull => Throw TypeError
  | HBool _ | HNum _ => Ok HUndefined
  | HStr s =>
      Ok (match nth_error s i with Some c => HStr [c] | None => HUndefined end)
  | HRef a =>
      match nth_error h a with
      | Some (CArr l) =>
          Ok (match nth_error l i with Some x => x | None => HUndefined end)
      | Some (CObj props) => Ok (hlookup (decimal (Z.of_nat i)) props)
      | None => Unmodelled
      end
  end.

Fixpoint all_some {A} (l : list (option A)) : option (list A) :=
  match l with
  | [] => Some []
  | Some x :: rest => option_map (cons x) (all_some rest)
  | None :: _ => None
  end.

(** The tree a value stands for, followed to depth [fuel]. *)
Fixpoint snapshot (fuel : nat) (h : heap) (v : hval) : option value :=
  match v with
  | HUndefined => Some VUndefined
  | HNull => Some VNull
  | HBool b => Some (VBool b)
  | HNum n => Some (VNum n)
  | HStr s => Some (VStr s)
  | HRef a =>
      match fuel with
      | O => None
      | S fuel' =>
          match nth_error h a with
          | Some (CArr l) =>
              option_map VArr (all_some (map (snapshot fuel' h) l))
          | Some (CObj props) =>
              option_map VObj
                (all_some
                   (map (fun kv =>
                           option_map (pair (fst kv))
                                      (snapshot fuel' h (snd kv)))
                        props))
          | None => None
          end
      end
  end.

(** [v + "literal"]: the conversion follows the references of [v]; on a
    heap of [n] cells without cycles a depth of [n] reaches everything. *)
Definition add_str_in (h : heap) (v : hval) (lit : jsstring)
  : result jsstring :=
  match snapshot (List.length h) h v with
  | Some tree => add_str tree lit
  | None => Unmodelled
  end.

Definition hget (k : jsstring) (v : hval) : M hval :=
  reading (fun h => get_in h k v).
Definition hindex (i : nat) (v : hval) : M hval :=
  reading (fun h => index_in h i v).
Definition hadd_str (v : hval) (lit : jsstring) : M jsstring :=
  reading (fun h => add_str_in h v lit).

(** An object or array literal: a new cell. *)
Definition alloc (c : cell) : M hval :=
  fun h => (Ok (HRef (List.length h)), h ++ [c]).

Fixpoint replace_nth {A} (n : nat) (x : A) (l : list A) : list A :=
  match l, n with
  | [], _ => []
  | _ :: rest, O => x :: rest
  | y :: rest, S n' => y :: replace_nth n' x rest
  end.

Fixpoint assign (k : jsstring) (v : hval) (props : list (jsstring * hval))
  : list (jsstring * hval) :=
  match props with
  | [] => [(k, v)]
  | (k', v') :: rest =>
      if str_eqb k' k then (k', v) :: rest else (k', v') :: assign k v rest
  end.

(** [target.k = v] on an object. *)
Definition set_prop (target : hval) (k : jsstring) (v : hval) : M unit :=
  fun h =>
    match target with
    | HUndefined | HNull => (Throw TypeError, h)
    | HRef a =>
        match nth_error h a with
        | Some (CObj props) =>
            (Ok tt, replace_nth a (CObj (assign k v props)) h)
        | _ => (Unmodelled, h)
        end
    | _ => (Unmodelled, h)
    end.

(** [target.push(v)]: only an array has a callable [push]. *)
Definition push (target : hval) (v : hval) : M unit :=
  fun h =>
    match target with
    | HRef a =>
        match nth_error h a with
        | Some (CArr l) => (Ok tt, replace_nth a (CArr (l ++ [v])) h)
        | Some (CObj _) => (Throw TypeError, h)
        | None => (Unmodelled, h)
        end
    | _ => (Throw TypeError, h)
    end.

Fixpoint find_in (p : hval -> M bool) (l : list hval) : M hval :=
  match l with
  | [] => ret HUndefined
  | x :: rest => b <-- p x ;; if b then ret x else find_in p rest
  end.

(** [v.find(p)] *)
Definition find (p : hval -> M bool) (v : hval) : M hval :=
  fun h =>
    match v with
    | HRef a =>
        match nth_error h a with
        | Some (CArr l) => find_in p l h
        | Some (CObj _) => (Throw TypeError, h)
        | None => (Unmodelled, h)
        end
    | _ => (Throw TypeError, h)
    end.

Fixpoint forEach_in (f : hval -> M unit) (l : list hval) : M unit :=
  match l with
  | [] => ret tt
  | x :: rest => _ <-- f x ;; forEach_in f rest
  end.

(** [v.forEach(f)] *)
Definition forEach (f : hval -> M unit) (v : hval) : M unit :=
  fun h =>
    match v with
    | HRef a =>
        match nth_error h a with
        | Some (CArr l) => forEach_in f l h
        | Some (CObj _) => (Throw TypeError, h)
        | None => (Unmodelled, h)
        end
    | _ => (Throw TypeError, h)
    end.

Definition hloop_trips (bound : hval) : M nat :=
  reading (fun h =>
    match bound with
    | HUndefined | HNull => Ok 0
    | HBool b => Ok (if b then 1 else 0)
    | HNum n => Ok (Z.to_nat n)
    | HStr _ => Unmodelled
    | HRef _ =>
        match snapshot (List.length h) h bound with
        | Some tree => loop_trips tree
        | None => Unmodelled
        end
    end).

(** Lines 98-124, with [forecast] a reference to the object of lines
    87-96. *)
Definition processElement (i : nat) (forecast element : hval) : M unit :=
  time <-- hget "time" element ;;
  timeEntry <-- hindex i time ;;
  if negb (htruthy timeEntry) then ret tt else
  parameter <-- hget "parameter" timeEntry ;;
  if negb (htruthy parameter) then ret tt else
  value <-- hget "parameterName" parameter ;;
  elementName <-- hget "elementName" element ;;
  if hstrict_eq_str elementName "Wx" then set_prop forecast "weather" value
  else if hstrict_eq_str elementName "PoP6h" then
    r <-- hadd_str value "%" ;; set_prop forecast "rain" (HStr r)
  else if hstrict_eq_str elementName "T" then
    lo <-- hadd_str value "°C" ;;
    _ <-- set_prop forecast "minTemp" (HStr lo) ;;
    hi <-- hadd_str value "°C" ;;
    set_prop forecast "maxTemp" (HStr hi)
  else if hstrict_eq_str elementName "CI" then
    set_prop forecast "comfort" value
  else if hstrict_eq_str elementName "Ws" then
    set_prop forecast "windSpeed" value
  else ret tt.

Definition hnamed (name : jsstring) (e : hval) : M bool :=
  n <-- hget "elementName" e ;; ret (hstrict_eq_str n name).

(** Lines 126-135. *)
Definition rainFallback (weatherElements : hval) (i : nat) (forecast : hval)
  : M unit :=
  rain <-- hget "rain" forecast ;;
  if negb (htruthy rain) then
    pop12hElement <-- find (hnamed "PoP12h") weatherElements ;;
    entry <-- (if htruthy pop12hElement
               then time <-- hget "time" pop12hElement ;; hindex i time
               else ret pop12hElement) ;;
    if htruthy entry then
      time <-- hget "time" pop12hElement ;;
      timeEntry <-- hindex i time ;;
      parameter <-- hget "parameter" timeEntry ;;
      popValue <-- hget "parameterName" parameter ;;
      r <-- hadd_str popValue "%" ;;
      set_prop forecast "rain" (HStr r)
    else set_prop forecast "rain" (HStr "0%")
  else ret tt.

(** One iteration of the loop (lines 87-138). *)
Definition iteration (weatherData weatherElements wxElement : hval) (i : nat)
  : M unit :=
  time <-- hget "time" wxElement ;;
  entry <-- hindex i time ;;
  start <-- hget "startTime" entry ;;
  time' <-- hget "time" wxElement ;;
  entry' <-- hindex i time' ;;
  stop <-- hget "endTime" entry' ;;
  forecast <-- alloc (CObj [(utf16 "startTime", start);
                            (utf16 "endTime", stop);
                            (utf16 "weather", HStr "");
                            (utf16 "rain", HStr "");
                            (utf16 "minTemp", HStr "");
                            (utf16 "maxTemp", HStr "");
                            (utf16 "comfort", HStr "");
                            (utf16 "windSpeed", HStr "")]) ;;
  _ <-- forEach (processElement i forecast) weatherElements ;;
  _ <-- rainFallback weatherElements i forecast ;;
  forecasts <-- hget "forecasts" weatherData ;;
  push forecasts forecast.

Fixpoint for_loop (body : nat -> M unit) (trips i : nat) : M unit :=
  match trips with
  | O => ret tt
  | S trips' => _ <-- body i ;; for_loop body trips' (S i)
  end.

(** Lines 69-139; the result is the reference held by [weatherData]. *)
Definition normalize (records taitungCityData : hval) : M hval :=
  name <-- hget "locationName" taitungCityData ;;
  issueTime <-- hget "issueTime" records ;;
  let updated := if htruthy issueTime then issueTime
                 else HStr "未知發布時間" in
  forecasts <-- alloc (CArr []) ;;
  weatherData <-- alloc (CObj [(utf16 "city", name);
                               (utf16 "updateTime", updated);
                               (utf16 "forecasts", forecasts)]) ;;
  weatherElements <-- hget "weatherElement" taitungCityData ;;
  wxElement <-- find (hnamed "Wx") weatherElements ;;
  if negb (htruthy wxElement) then throw (Error "缺少 Wx 天氣要素") else
  time <-- hget "time" wxElement ;;
  timeCount <-- hget "length" time ;;
  trips <-- hloop_trips timeCount ;;
  _ <-- for_loop (iteration weatherData weatherElements wxElement) trips 0 ;;
  ret weatherData.

(** [JSON.parse] as an allocator: the cells of the members first, then
    the cell of the array or object. *)
Fixpoint load (v : value) (h : heap) : hval * heap :=
  match v with
  | VUndefined => (HUndefined, h)
  | VNull => (HNull, h)
  | VBool b => (HBool b, h)
  | VNum n => (HNum n, h)
  | VStr s => (HStr s, h)
  | VArr l =>
      let (xs, h') :=
        (fix members (l : list value) (h : heap) : list hval * heap :=
           match l with
           | [] => ([], h)
           | v :: rest =>
               let (x, h1) := load v h in
               let (xs, h2) := members rest h1 in
               (x :: xs, h2)
           end) l h in
      (HRef (List.length h'), h' ++ [CArr xs])
  | VObj p =>
      let (xs, h') :=
        (fix members (p : list (jsstring * value)) (h : heap)
           : list (jsstring * hval) * heap :=
           match p with
           | [] => ([], h)
           | (k, v) :: rest =>
               let (x, h1) := load v h in
               let (xs, h2) := members rest h1 in
               ((k, x) :: xs, h2)
           end) p h in
      (HRef (List.length h'), h' ++ [CObj xs])
  end.

End Heap.

(* ================================================================== *)
(** ** Heap values and the trees they stand for *)
(* ================================================================== *)

Module Refinement.
Import JS Server Heap.

Definition below (a : nat) (x : hval) : Prop :=
  match x with
  | HRef a' => a' < a
  | _ => True
  end.

(** [repr hin v x]: in the heap [hin], [x] stands for the tree [v], and
    every cell reached refers only to cells allocated before it, as in
    the result of [JSON.parse]. *)
Inductive repr (hin : heap) : value -> hval -> Prop :=
| repr_undefined : repr hin VUndefined HUndefined
| repr_null : repr hin VNull HNull
| repr_bool b : repr hin (VBool b) (HBool b)
| repr_num n : repr hin (VNum n) (HNum n)
| repr_str s : repr hin (VStr s) (HStr s)
| repr_arr a hl vl :
    nth_error hin a = Some (CArr hl) ->
    Forall2 (fun v x => repr hin v x /\ below a x) vl hl ->
    repr hin (VArr vl) (HRef a)
| repr_obj a hp vp :
    nth_error hin a = Some (CObj hp) ->
    Forall2 (fun kv kx => fst kv = fst kx /\
                          repr hin (snd kv) (snd kx) /\ below a (snd kx))
            vp hp ->
    repr hin (VObj vp) (HRef a).

(** A read on the heap agrees with the read on the tree. *)
Definition agrees (hin : heap) (r : result value) (rh : result hval) : Prop :=
  match r, rh with
  | Ok v, Ok x => repr hin v x
  | Throw e, Throw e' => e = e'
  | Unmodelled, Unmodelled => True
  | _, _ => False
  end.

(** A step from the heap [hin ++ fr]: the cells of [hin] stay as they
    are, no cell is freed, the cells of [fr] selected by [Keep] are not
    written, and the result matches the result [r] of the same step on
    trees. *)
Definition sim {A B} (hin fr : heap) (Keep : nat -> Prop)
           (Q : A -> B -> heap -> Prop)
           (r : result A) (rh : result B * heap) : Prop :=
  exists fr',
    snd rh = hin ++ fr' /\
    List.length fr <= List.length fr' /\
    (forall j, Keep j -> j < List.length fr ->
               nth_error fr' j = nth_error fr j) /\
    match r, fst rh with
    | Ok a, Ok b => Q a b fr'
    | Throw e, Throw e' => e = e'
    | Unmodelled, Unmodelled => True
    | _, _ => False
    end.

(** A compound read: it leaves the heap as it is and agrees with the same
    read on trees. *)
Definition pure_read (hin fr : heap) (r : result value) (m : M hval)
  : Prop :=
  exists rh, m (hin ++ fr) = (rh, hin ++ fr) /\ agrees hin r rh.

(** The cell of the object literal of lines 87-96. *)
Definition forecastCell (start stop w : hval) (r lo hi : jsstring)
           (c ws : hval) : cell :=
  CObj [(utf16 "startTime", start); (utf16 "endTime", stop);
        (utf16 "weather", w); (utf16 "rain", HStr r);
        (utf16 "minTemp", HStr lo); (utf16 "maxTemp", HStr hi);
        (utf16 "comfort", c); (utf16 "windSpeed", ws)].

(** The forecast object at index [j] of the cells allocated by the
    handler stands for the record [fc]. *)
Definition fc_at (hin fr : heap) (j : nat) (fc : forecast) : Prop :=
  exists start stop w c ws,
    nth_error fr j =
      Some (forecastCell start stop w (rain fc) (minTemp fc) (maxTemp fc)
                         c ws) /\
    repr hin (startTime fc) start /\ repr hin (endTime fc) stop /\
    repr hin (weather fc) w /\ repr hin (comfort fc) c /\
    repr hin (windSpeed fc) ws.

Definition Qfc (hin : heap) (j : nat) : forecast -> unit -> heap -> Prop :=
  fun fc' _ fr' => fc_at hin fr' j fc'.

(** The objects of lines 69-74 among the cells allocated by the handler:
    [weatherData] at index [jw], its [forecasts] array at index [jf],
    holding references to the forecast objects pushed so far. *)
Definition out_at (hin fr : heap) (jf jw : nat) (cityv upd : value)
           (fcs : list forecast) : Prop :=
  exists cx ux refs,
    nth_error fr jw =
      Some (CObj [(utf16 "city", cx); (utf16 "updateTime", ux);
                  (utf16 "forecasts", HRef (List.length hin + jf))]) /\
    repr hin cityv cx /\ repr hin upd ux /\
    nth_error fr jf = Some (CArr refs) /\
    Forall2 (fun ref fc =>
               exists j, ref = HRef (List.length hin + j) /\
                         fc_at hin fr j fc)
            refs fcs.

End Refinement.

(* ================================================================== *)
(** ** What the elements contribute at a time index *)
(* ================================================================== *)

Module Contribution.
Import JS Server.

(** The value the [forEach] callback takes from [element] at index [i]
    when [element] is named [name]: it passes the guard of line 100 and
    its name selects the [case] of [name]. *)
Definition yields (name : jsstring) (i : nat) (element : value)
  : option value :=
  match named name element, entryValue i element with
  | Ok true, Ok (Some v) => Some v
  | _, _ => None
  end.

(** The value of the last element of the list that yields one under
    [name]: the one whose assignment survives the [forEach]. *)
Fixpoint last_yield (name : jsstring) (i : nat) (elements : list value)
  : option value :=
  match elements with
  | [] => None
  | e :: rest =>
      match last_yield name i rest with
      | Some v => Some v
      | None => yields name i e
      end
  end.

(** What one call of the [forEach] callback does to the local object:
    each field is overwritten by the value the element yields for it,
    and kept otherwise. *)
Definition step_spec (i : nat) (e : value) (fc fc' : forecast) : Prop :=
  startTime fc' = startTime fc /\
  endTime fc' = endTime fc /\
  weather fc' =
    match yields "Wx" i e with Some v => v | None => weather fc end /\
  comfort fc' =
    match yields "CI" i e with Some v => v | None => comfort fc end /\
  windSpeed fc' =
    match yields "Ws" i e with Some v => v | None => windSpeed fc end /\
  match yields "PoP6h" i e with
  | Some v => exists s, to_string v = Ok s /\ rain fc' = s ++ utf16 "%"
  | None => rain fc' = rain fc
  end /\
  match yields "T" i e with
  | Some v => exists s, to_string v = Ok s /\
                        minTemp fc' = s ++ utf16 "°C" /\
                        maxTemp fc' = s ++ utf16 "°C"
  | None => minTemp fc' = minTemp fc /\ maxTemp fc' = maxTemp fc
  end.

(** What the whole [forEach] does to the local object. *)
Definition fold_spec (i : nat) (ws : list value) (fc fc' : forecast) : Prop :=
  startTime fc' = startTime fc /\
  endTime fc' = endTime fc /\
  weather fc' =
    match last_yield "Wx" i ws with Some v => v | None => weather fc end /\
  comfort fc' =
    match last_yield "CI" i ws with Some v => v | None => comfort fc end /\
  windSpeed fc' =
    match last_yield "Ws" i ws with Some v => v | None => windSpeed fc end /\
  match last_yield "PoP6h" i ws with
  | Some v => exists s, to_string v = Ok s /\ rain fc' = s ++ utf16 "%"
  | None => rain fc' = rain fc
  end /\
  match last_yield "T" i ws with
  | Some v => exists s, to_string v = Ok s /\
                        minTemp fc' = s ++ utf16 "°C" /\
                        maxTemp fc' = s ++ utf16 "°C"
  | None => minTemp fc' = minTemp fc /\ maxTemp fc' = maxTemp fc
  end.

(** No element named [name] yields a value at index [i]: each of them, if
    there is any, has no [i]-th time entry or no [parameter] in it. *)
Definition no_value (name : jsstring) (i : nat) (elements : list value)
  : Prop :=
  Forall (fun e => named name e = Ok true -> entryValue i e = Ok None)
         elements.

(** A time entry as the dataset documents it: an object whose [parameter]
    is an object with a string [parameterName]. *)
Definition typed_entry (e : value) : Prop :=
  is_object e = true /\
  exists p s, get "parameter" e = Ok p /\ is_object p = true /\
              get "parameterName" p = Ok (VStr s).

(** A weather element: an object with a string name and an array of
    typed time entries. *)
Definition typed_element (el : value) : Prop :=
  exists n times,
    get "elementName" el = Ok (VStr n) /\
    get "time" el = Ok (VArr times) /\
    Forall typed_entry times.

(** An element name that selects no [case] of the [switch] and is not
    the name the fallback looks for. *)
Definition other_name (n : value) : Prop :=
  strict_eq_str n "Wx" = false /\ strict_eq_str n "PoP6h" = false /\
  strict_eq_str n "T" = false /\ strict_eq_str n "CI" = false /\
  strict_eq_str n "Ws" = false /\ strict_eq_str n "PoP12h" = false.

(** A township record as the dataset documents it: its [weatherElement]
    is an array of typed elements, one of which is named ["Wx"]. *)
Definition typed_township (t : value) : Prop :=
  exists ws,
    get "weatherElement" t = Ok (VArr ws) /\
    Forall typed_element ws /\
    Exists (fun el => get "elementName" el = Ok (VStr "Wx")) ws.

End Contribution.

(* ================================================================== *)
(** ** Where an exception comes from *)
(* ================================================================== *)

Module Confinement.
Import JS Server.

(** An exception raised by the evaluation of the handler's own code,
    as opposed to the rejection of the outbound request. *)
Definition local_exn (e : exn) : Prop :=
  match e with
  | AxiosError _ => False
  | _ => True
  end.


(** [m] returns, or throws an exception of the handler's own code. *)
Definition contained {A} (m : result A) : Prop :=
  match m with
  | Ok _ => True
  | Throw e => local_exn e
  | Unmodelled => False
  end.


End Confinement.

(* ================================================================== *)
(** ** Sample documents *)
(* ================================================================== *)

Module Fixtures.
Import JS Server.

Definition obj (props : list (string * value)) : value :=
  VObj (map (fun kv => (utf16 (fst kv), snd kv)) props).

(** A time entry with its period and a [parameter] carrying [v]. *)
Definition entry (start stop : string) (v : value) : value :=
  obj [("startTime", VStr start); ("endTime", VStr stop);
       ("parameter", obj [("parameterName", v)])].

(** A time entry with no [parameter]. *)
Definition bareEntry (start stop : string) : value :=
  obj [("startTime", VStr start); ("endTime", VStr stop)].

Definition element (name : string) (times : list value) : value :=
  obj [("elementName", VStr name); ("time", VArr times)].

Definition township (name : string) (elements : list value) : value :=
  obj [("locationName", VStr name); ("weatherElement", VArr elements)].

(** A dataset answer with one location group. *)
Definition document (townships : list value) : value :=
  obj [("success", VStr "true");
       ("records",
        obj [("issueTime", VStr "2024-05-01T11:00:00+08:00");
             ("locations",
              VArr [obj [("locationsName", VStr "臺東縣");
                         ("location", VArr townships)]])])].

Definition serverError : response :=
  mkResponse 500
    (ErrorBody "伺服器錯誤" (VStr "無法取得天氣資料，請稍後再試") None).

(** Two townships, the second one being the target city. *)
Definition twoTownships : list value :=
  [township "成功鎮"
     [element "Wx" [entry "06:00" "09:00" (VStr "陰天")]];
   township "臺東市"
     [element "Wx" [entry "06:00" "09:00" (VStr "晴天")]]].

(** Two townships, neither of them the target city. *)
Definition otherTownships : list value :=
  [township "成功鎮"
     [element "Wx" [entry "06:00" "09:00" (VStr "陰天")]];
   township "關山鎮"
     [element "Wx" [entry "06:00" "09:00" (VStr "晴天")]]].

(** A township whose Wx axis has two periods, with a PoP6h value for the
    first period only and a PoP12h value for the second period only. *)
Definition fallbackDocument (v30 v70 : value) : value :=
  document
    [township "臺東市"
       [element "Wx" [entry "06:00" "12:00" (VStr "晴天");
                      entry "12:00" "18:00" (VStr "短暫雨")];
        element "PoP6h" [entry "06:00" "12:00" v30];
        element "PoP12h" [VNull; entry "12:00" "18:00" v70]]].

(** One period; PoP6h is missing and the PoP12h entry of the period has
    no [parameter]. *)
Definition bareFallbackElements : list value :=
  [element "Wx" [entry "06:00" "12:00" (VStr "晴天")];
   element "PoP12h" [bareEntry "06:00" "12:00"]].

Definition bareFallbackDocument : value :=
  document [township "臺東市" bareFallbackElements].


(** Two periods; the Wx entries carry no [parameter], T has a value for
    the first period only, CI has an entry without [parameter], and there
    is no Ws element. *)
Definition sparseElements : list value :=
  [element "Wx" [bareEntry "06:00" "09:00"; bareEntry "09:00" "12:00"];
   element "T" [entry "06:00" "09:00" (VStr "25")];
   element "CI" [bareEntry "06:00" "09:00"; bareEntry "09:00" "12:00"]].

Definition sparseDocument : value :=
  document [township "臺東市" sparseElements].

(** A document loaded into an empty heap: its [records] object ends up at
    address 13 and the township at address 9. *)
Definition sampleRecords : value :=
  obj [("issueTime", VStr "2024-05-01T11:00:00+08:00");
       ("locations",
        VArr [obj [("locationsName", VStr "臺東縣");
                   ("location",
                    VArr [township "臺東市"
                            [element "Wx"
                               [entry "06:00" "09:00" (VStr "晴天")];
                             element "T"
                               [entry "06:00" "09:00" (VStr "25")]]])]])].

Definition sampleTownship : value :=
  township "臺東市"
    [element "Wx" [entry "06:00" "09:00" (VStr "晴天")];
     element "T" [entry "06:00" "09:00" (VStr "25")]].

Definition sampleHeap : Heap.heap := snd (Heap.load sampleRecords []).

(** The sample township with a relative-humidity element, which the
    handler does not report, between Wx and T. *)
Definition humidityTownship : value :=
  township "臺東市"
    [element "Wx" [entry "06:00" "09:00" (VStr "晴天")];
     element "RH" [entry "06:00" "09:00" (VStr "80")];
     element "T" [entry "06:00" "09:00" (VStr "25")]].

(** A document whose Wx time list has a [null] second entry. *)
Definition axisHoleDocument : value :=
  document
    [township "臺東市"
       [element "Wx" [entry "06:00" "09:00" (VStr "晴天"); VNull]]].

(** A document whose township list has a [null] entry before the target
    city. *)
Definition nullTownshipDocument : value :=
  document
    [township "成功鎮"
       [element "Wx" [entry "06:00" "09:00" (VStr "陰天")]];
     VNull;
     township "臺東市"
       [element "Wx" [entry "06:00" "09:00" (VStr "晴天")]]].

End Fixtures.

(* ================================================================== *)
(** ** Properties *)
(* ================================================================== *)

Module Properties.
Import JS Server Contribution Fixtures.

(** *** Reading values *)

Lemma str_eqb_true (s t : jsstring) : str_eqb s t = true <-> s = t.
Proof.
  unfold str_eqb. destruct (list_eq_dec N.eq_dec s t); split;
    intros; congruence.
Qed.

Lemma str_eqb_refl (s : jsstring) : str_eqb s s = true.
Proof. now apply str_eqb_true. Qed.

Lemma strict_eq_str_true (v : value) (lit : jsstring) :
  strict_eq_str v lit = true <-> v = VStr lit.
Proof.
  destruct v; simpl; try (split; [discriminate | congruence]).
  rewrite str_eqb_true. split; congruence.
Qed.

Lemma truthy_not_nullish (v : value) : truthy v = true -> nullish v = false.
Proof. destruct v; simpl; congruence. Qed.

(** A read on a value that is neither [null] nor [undefined] yields a
    value. *)
Lemma get_total (k : jsstring) (v : value) :
  nullish v = false -> exists w, get k v = Ok w.
Proof. destruct v; simpl; try discriminate; eauto. Qed.

Lemma get_Ok_not_nullish (k : jsstring) (v w : value) :
  get k v = Ok w -> nullish v = false.
Proof. destruct v; simpl; congruence. Qed.

Lemma index_Ok_not_nullish (i : nat) (v w : value) :
  index i v = Ok w -> nullish v = false.
Proof. destruct v; simpl; congruence. Qed.

(** A value with a truthy property is an object (among parsed values only
    objects carry the handler's property names). *)
Lemma get_truthy_object (k : jsstring) (v w : value) :
  get k v = Ok w -> truthy w = true -> str_eqb k "length" = false ->
  exists props, v = VObj props.
Proof.
  destruct v; simpl; intros H T L; try discriminate;
    try (injection H as <-; try rewrite L in T; discriminate).
  eauto.
Qed.

(** *** The catch-all of the handler *)

(** Whatever the [try] block throws on a resolved request is answered
    with the generic 500. *)
Lemma thrown_in_try_is_500 (data : value) (e : exn) :
  try_block data = Throw e ->
  (forall r, e <> AxiosError r) ->
  after_request (Resolved data) = Responded serverError.
Proof.
  intros H Hne. unfold after_request. rewrite H.
  destruct e as [| m | r]; try reflexivity.
  now destruct (Hne r).
Qed.

(** Case analysis on the result bound first in a hypothesis [H]. *)
Ltac bind_inv H :=
  match type of H with
  | bind ?m _ = _ =>
      let E := fresh "E" in
      destruct m eqn:E; cbn [bind] in H; try discriminate H
  | (if ?b then _ else _) = _ =>
      let E := fresh "E" in
      destruct b eqn:E; try discriminate H
  end.

(** What [locate] has read when it hands a township over. *)
Lemma locate_Township (data records taitungCityData : value) :
  locate data = Ok (Township records taitungCityData) ->
  exists locations group location,
    get "records" data = Ok records /\
    get "locations" records = Ok locations /\
    index 0 locations = Ok group /\ truthy group = true /\
    get "location" group = Ok location /\ truthy location = true /\
    selectTownship location = Ok taitungCityData /\
    truthy taitungCityData = true.
Proof.
  unfold locate. intros H.
  bind_inv H. bind_inv H. bind_inv H. bind_inv H. bind_inv H.
  bind_inv H. bind_inv H. bind_inv H.
  injection H as <- <-.
  apply negb_false_iff in E2, E4, E6.
  eauto 12.
Qed.

(** *** C3: the configuration check *)

(** With a key configured the handler issues exactly one request, to the
    dataset URL. *)
Lemma configured_key_requests_once
      (key : jsstring) (upstream : jsstring -> axios_result) :
  key <> [] ->
  fst (serve (Some key) upstream) =
    [CWA_API_BASE_URL ++ utf16 "/v1/rest/datastore/F-D0047-091"].
Proof.
  intros Hk. unfold serve, getTaitungWeather.
  destruct key as [| c key']; [congruence | reflexivity].
Qed.

(** C3. When [CWA_API_KEY] is unset or empty, GET /api/weather/taitung is
    answered with HTTP 500 and a body with an [error] field, and no
    outbound request is issued, whatever the upstream service would have
    answered. *)
Theorem missing_key_is_500_without_request :
  forall (CWA_API_KEY : option jsstring)
         (upstream : jsstring -> axios_result),
    CWA_API_KEY = None \/ CWA_API_KEY = Some (utf16 "") ->
    serve CWA_API_KEY upstream =
      ([], Responded
             (mkResponse 500
                (ErrorBody "伺服器設定錯誤"
                   (VStr "請在 .env 檔案中設定 CWA_API_KEY") None))).
Proof.
  intros key upstream [-> | ->]; reflexivity.
Qed.

Lemma missing_key_is_500_without_request_witness :
  serve None (fun _ => Resolved (document [])) =
    ([], Responded
           (mkResponse 500
              (ErrorBody "伺服器設定錯誤"
                 (VStr "請在 .env 檔案中設定 CWA_API_KEY") None))).
Proof.
  apply (missing_key_is_500_without_request None). left. reflexivity.
Defined.

(** *** C8: documents without a location group or township list *)

(** [find] on the empty array finds nothing, and [[][0]] is [undefined]. *)
Lemma selectTownship_empty : selectTownship (VArr []) = Ok VUndefined.
Proof. reflexivity. Qed.

(** C8 (amended). When [response.data.records.locations] can be read and
    indexed, and its first element (the location group) is missing or
    falsy, or the group's [location] list is missing, falsy or empty, the
    request is answered with HTTP 404 and an error message. *)
Theorem absent_group_or_townships_is_404 :
  forall data records locations group,
    get "records" data = Ok records ->
    get "locations" records = Ok locations ->
    index 0 locations = Ok group ->
    (truthy group = false \/
     exists location,
       get "location" group = Ok location /\
       (truthy location = false \/ location = VArr [])) ->
    exists msg,
      after_request (Resolved data) = Responded (notFound msg) /\
      status (notFound msg) = 404%Z.
Proof.
  intros data records locations group Hr Hl Hg Habsent.
  unfold after_request, try_block, locate.
  rewrite Hr; cbn [bind]. rewrite Hl; cbn [bind]. rewrite Hg; cbn [bind].
  destruct Habsent as [Hgroup | (location & Hloc & Hlist)].
  - rewrite Hgroup. cbn. eauto.
  - destruct (truthy group); cbn [negb]; [| cbn; eauto].
    rewrite Hloc; cbn [bind].
    destruct Hlist as [Hfalsy | ->].
    + rewrite Hfalsy. cbn. eauto.
    + cbn. eauto.
Qed.

Lemma absent_group_or_townships_is_404_witness :
  exists msg,
    after_request (Resolved (document [])) = Responded (notFound msg) /\
    status (notFound msg) = 404%Z.
Proof.
  eapply (absent_group_or_townships_is_404 (document [])).
  - reflexivity.
  - reflexivity.
  - reflexivity.
  - right. eexists. split; [reflexivity | right; reflexivity].
Defined.

(** An answer whose [records] has no [locations] at all lacks the location
    group, yet reading [locations[0]] throws and the request ends in the
    generic HTTP 500, not in 404. *)
Lemma missing_locations_is_500 :
  let data := obj [("success", VStr "true"); ("records", obj [])] in
  (exists records,
      get "records" data = Ok records /\
      get "locations" records = Ok VUndefined) /\
  try_block data = Throw TypeError /\
  after_request (Resolved data) = Responded serverError /\
  status serverError = 500%Z /\
  ~ (exists msg, after_request (Resolved data) = Responded (notFound msg)).
Proof.
  cbv zeta. repeat split.
  - eexists. split; reflexivity.
  - intros [msg H]. vm_compute in H. discriminate H.
Qed.

(** *** C6: a township without the Wx element *)

(** The [find] callback on element names yields a boolean or throws
    [TypeError] (on a [null] element). *)
Lemma named_cases (name : jsstring) (e : value) :
  (exists b, named name e = Ok b /\ nullish e = false) \/
  (named name e = Throw TypeError /\ nullish e = true).
Proof.
  unfold named. destruct e; simpl; eauto.
Qed.

(** When no element satisfies the callback, [find] returns [undefined],
    unless the callback threw on the way. *)
Lemma find_in_none (name : jsstring) (l : list value) :
  Forall (fun e => named name e <> Ok true) l ->
  find_in (named name) l = Ok VUndefined \/
  (find_in (named name) l = Throw TypeError /\
   Exists (fun e => nullish e = true) l).
Proof.
  induction 1 as [| e l He Hl IH]; simpl; [now left |].
  destruct (named_cases name e) as [(b & Hb & _) | (Ht & Hn)].
  - rewrite Hb; cbn [bind]. destruct b; [congruence |].
    destruct IH as [IH | (IH & Hex)]; [now left |].
    right. split; [exact IH | now apply Exists_cons_tl].
  - rewrite Ht; cbn [bind]. right. split; [reflexivity |].
    now apply Exists_cons_hd.
Qed.

(** C6. When the weather-element list of the selected township has no
    element named ["Wx"], normalisation throws, the request is answered
    with the generic HTTP 500, and no success response (hence no forecast
    list, partial or empty) is produced.  The error thrown is the
    handler's own "missing Wx" error as soon as the list has no [null]
    element. *)
Theorem missing_Wx_is_500 :
  forall data records taitungCityData elements,
    locate data = Ok (Township records taitungCityData) ->
    get "weatherElement" taitungCityData = Ok (VArr elements) ->
    Forall (fun e => named "Wx" e <> Ok true) elements ->
    (exists e, normalize records taitungCityData = Throw e) /\
    after_request (Resolved data) = Responded serverError /\
    status serverError = 500%Z /\
    (forall wd, try_block data <> Ok (mkResponse 200 (SuccessBody wd))) /\
    (Forall (fun e => nullish e = false) elements ->
     try_block data = Throw (Error "缺少 Wx 天氣要素")).
Proof.
  intros data records t elements Hloc Hws Hno.
  destruct (locate_Township _ _ _ Hloc)
    as (locations & group & location & Hr & Hl & _).
  destruct (get_total "locationName" t (get_Ok_not_nullish _ _ _ Hws))
    as [name Hname].
  destruct (get_total "issueTime" records (get_Ok_not_nullish _ _ _ Hl))
    as [issue Hissue].
  assert (Hnorm :
            normalize records t = Throw (Error "缺少 Wx 天氣要素") \/
            (normalize records t = Throw TypeError /\
             Exists (fun e => nullish e = true) elements)).
  { unfold normalize. rewrite Hname, Hissue, Hws; cbn [bind find].
    destruct (find_in_none "Wx" elements Hno) as [-> | [-> Hex]];
      cbn [bind]; [left; reflexivity | right; split; [reflexivity | exact Hex]]. }
  assert (Htry : forall e, normalize records t = Throw e ->
                           try_block data = Throw e).
  { intros e He. unfold try_block. rewrite Hloc; cbn [bind].
    now rewrite He. }
  repeat split.
  - destruct Hnorm as [H | [H _]]; eauto.
  - destruct Hnorm as [H | [H _]];
      apply (thrown_in_try_is_500 _ _ (Htry _ H)); discriminate.
  - intros wd Hwd.
    destruct Hnorm as [H | [H _]]; rewrite (Htry _ H) in Hwd; discriminate.
  - intros Hnonnull. destruct Hnorm as [H | [H Hex]]; [now apply Htry |].
    exfalso. apply Exists_exists in Hex. destruct Hex as (e & Hin & He).
    rewrite Forall_forall in Hnonnull. specialize (Hnonnull e Hin).
    congruence.
Qed.

Lemma missing_Wx_is_500_witness :
  let t := township "臺東市"
             [element "T" [entry "06:00" "09:00" (VStr "25")]] in
  after_request (Resolved (document [t])) = Responded serverError /\
  try_block (document [t]) = Throw (Error "缺少 Wx 天氣要素").
Proof.
  cbv zeta.
  pose proof
    (missing_Wx_is_500
       (document [township "臺東市"
                    [element "T" [entry "06:00" "09:00" (VStr "25")]]])
       _ _ [element "T" [entry "06:00" "09:00" (VStr "25")]]
       eq_refl eq_refl) as H.
  destruct H as (_ & Hresp & _ & _ & Herr).
  - repeat constructor. vm_compute. discriminate.
  - split; [exact Hresp |].
    apply Herr. repeat constructor.
Defined.

(** *** C4, C5: selection of the township *)

Lemma isTaitungCity_object (loc : value) :
  is_object loc = true ->
  exists n, get "locationName" loc = Ok n /\
            isTaitungCity loc = Ok (strict_eq_str n "臺東市").
Proof.
  destruct loc; try discriminate. intros _.
  unfold isTaitungCity. simpl. eauto.
Qed.

(** On a list of objects, [find] returns the first township named
    ["臺東市"], or [undefined] when there is none. *)
Lemma find_first_exact (l : list value) :
  Forall (fun loc => is_object loc = true) l ->
  (exists pre t post,
      l = pre ++ t :: post /\
      get "locationName" t = Ok (VStr "臺東市") /\
      Forall (fun loc => get "locationName" loc <> Ok (VStr "臺東市")) pre /\
      find_in isTaitungCity l = Ok t) \/
  (Forall (fun loc => get "locationName" loc <> Ok (VStr "臺東市")) l /\
   find_in isTaitungCity l = Ok VUndefined).
Proof.
  induction 1 as [| loc l Hobj Hl IH]; simpl.
  - right. split; [constructor | reflexivity].
  - destruct (isTaitungCity_object loc Hobj) as (n & Hn & Hcb).
    rewrite Hcb; cbn [bind].
    destruct (strict_eq_str n "臺東市") eqn:Heq.
    + apply strict_eq_str_true in Heq. subst n.
      left. exists [], loc, l. repeat split; auto.
    + assert (Hne : get "locationName" loc <> Ok (VStr "臺東市")).
      { rewrite Hn. intros Hc. injection Hc as ->.
        rewrite (proj2 (strict_eq_str_true _ _) eq_refl) in Heq.
        discriminate. }
      destruct IH as [(pre & t & post & -> & Ht & Hpre & Hfind)
                     | (Hnone & Hfind)].
      * left. exists (loc :: pre), t, post. repeat split; auto.
      * right. split; auto.
Qed.

Lemma object_truthy (v : value) : is_object v = true -> truthy v = true.
Proof. destruct v; simpl; congruence. Qed.

(** [locate] on a document whose first group has a township list. *)
Lemma locate_with_townships (data records locations group : value)
      (l : list value) (t : value) :
  get "records" data = Ok records ->
  get "locations" records = Ok locations ->
  index 0 locations = Ok group ->
  get "location" group = Ok (VArr l) ->
  selectTownship (VArr l) = Ok t ->
  truthy t = true ->
  locate data = Ok (Township records t).
Proof.
  intros Hr Hl Hg Hloc Hsel Ht. unfold locate.
  rewrite Hr; cbn [bind]. rewrite Hl; cbn [bind]. rewrite Hg; cbn [bind].
  destruct (get_truthy_object _ _ _ Hloc eq_refl eq_refl) as [props ->].
  cbn [truthy negb]. rewrite Hloc; cbn [bind truthy negb].
  rewrite Hsel; cbn [bind]. now rewrite Ht.
Qed.

Lemma try_block_located (data records t : value) :
  locate data = Ok (Township records t) ->
  try_block data =
    (wd <- normalize records t ;; Ok (mkResponse 200 (SuccessBody wd))).
Proof. intros H. unfold try_block. now rewrite H. Qed.

Lemma normalize_city (records t : value) (wd : weatherData) :
  normalize records t = Ok wd -> get "locationName" t = Ok (city wd).
Proof.
  unfold normalize. intros H.
  bind_inv H. bind_inv H. bind_inv H. bind_inv H. bind_inv H.
  bind_inv H. bind_inv H. bind_inv H. bind_inv H.
  now injection H as <-.
Qed.




(** The second township is the one that reaches the response. *)
Example exact_match_response :
  after_request (Resolved (document twoTownships)) =
    Responded
      (mkResponse 200
         (SuccessBody
            (mkWeatherData (VStr "臺東市")
               (VStr "2024-05-01T11:00:00+08:00")
               [mkForecast (VStr "06:00") (VStr "09:00") (VStr "晴天")
                           "0%" "" "" (VStr "") (VStr "")]))).
Proof. vm_compute. reflexivity. Qed.



Example no_match_response :
  after_request (Resolved (document otherTownships)) =
    Responded
      (mkResponse 200
         (SuccessBody
            (mkWeatherData (VStr "成功鎮")
               (VStr "2024-05-01T11:00:00+08:00")
               [mkForecast (VStr "06:00") (VStr "09:00") (VStr "陰天")
                           "0%" "" "" (VStr "") (VStr "")]))).
Proof. vm_compute. reflexivity. Qed.

(** *** The forecast of one time index *)

Lemma named_Ok (name : jsstring) (e n : value) :
  get "elementName" e = Ok n -> named name e = Ok (strict_eq_str n name).
Proof. intros H. unfold named. now rewrite H. Qed.

Lemma yields_named (name : jsstring) (i : nat) (e n v : value) :
  get "elementName" e = Ok n ->
  entryValue i e = Ok (Some v) ->
  yields name i e = if strict_eq_str n name then Some v else None.
Proof.
  intros Hn Hv. unfold yields. rewrite (named_Ok _ _ _ Hn), Hv.
  now destruct (strict_eq_str n name).
Qed.

Lemma yields_no_entry (name : jsstring) (i : nat) (e : value) :
  entryValue i e = Ok None -> yields name i e = None.
Proof.
  intros H. unfold yields. rewrite H.
  now destruct (named name e) as [[|] | |].
Qed.

Lemma processElement_spec (i : nat) (e : value) (fc fc' : forecast) :
  processElement i e fc = Ok fc' -> step_spec i e fc fc'.
Proof.
  unfold processElement. intros H. bind_inv H.
  destruct a as [v |].
  - unfold dispatch in H. bind_inv H. rename a into n.
    unfold step_spec.
    rewrite !(yields_named _ _ _ _ _ E0 E).
    destruct (strict_eq_str n "Wx") eqn:EWx.
    { apply strict_eq_str_true in EWx. subst n. injection H as <-.
      cbn. repeat split; reflexivity. }
    destruct (strict_eq_str n "PoP6h") eqn:EPoP.
    { apply strict_eq_str_true in EPoP. subst n.
      unfold add_str in H.
      destruct (to_string v) as [s | |] eqn:Es; cbn [bind] in H;
        try discriminate H.
      injection H as <-. cbn. repeat split; eauto. }
    destruct (strict_eq_str n "T") eqn:ET.
    { apply strict_eq_str_true in ET. subst n.
      unfold add_str in H.
      destruct (to_string v) as [s | |] eqn:Es; cbn [bind] in H;
        try discriminate H.
      injection H as <-. cbn. repeat split; eauto. }
    destruct (strict_eq_str n "CI") eqn:ECI.
    { apply strict_eq_str_true in ECI. subst n. injection H as <-.
      cbn. repeat split; reflexivity. }
    destruct (strict_eq_str n "Ws") eqn:EWs.
    { apply strict_eq_str_true in EWs. subst n. injection H as <-.
      cbn. repeat split; reflexivity. }
    injection H as <-. repeat split; reflexivity.
  - injection H as <-. unfold step_spec.
    rewrite !(yields_no_entry _ _ _ E). repeat split; reflexivity.
Qed.

Lemma forEach_spec (i : nat) (ws : list value) :
  forall fc fc',
    forEach_in (processElement i) ws fc = Ok fc' -> fold_spec i ws fc fc'.
Proof.
  induction ws as [| e rest IH]; intros fc fc' H.
  - injection H as <-. repeat split; reflexivity.
  - cbn [forEach_in] in H. bind_inv H. rename a into fc1.
    apply processElement_spec in E. apply IH in H.
    destruct E as (S1 & S2 & S3 & S4 & S5 & S6 & S7).
    destruct H as (F1 & F2 & F3 & F4 & F5 & F6 & F7).
    unfold fold_spec. cbn [last_yield].
    repeat split.
    + congruence.
    + congruence.
    + destruct (last_yield "Wx" i rest); congruence.
    + destruct (last_yield "CI" i rest); congruence.
    + destruct (last_yield "Ws" i rest); congruence.
    + destruct (last_yield "PoP6h" i rest); [exact F6 |].
      destruct (yields "PoP6h" i e).
      * destruct S6 as (s & Hs & Hr). exists s. split; congruence.
      * congruence.
    + destruct (last_yield "T" i rest); [exact F7 |].
      destruct (yields "T" i e).
      * destruct S7 as (s & Hs & Hlo & Hhi). destruct F7 as [Flo Fhi].
        exists s. repeat split; congruence.
      * destruct S7, F7. split; congruence.
Qed.

Lemma get_object (k : jsstring) (v w : value) :
  get k v = Ok w -> nullish w = false -> str_eqb k "length" = false ->
  exists props, v = VObj props.
Proof.
  destruct v; simpl; intros H T L; try discriminate;
    try (injection H as <-; try rewrite L in T; discriminate).
  eauto.
Qed.

Lemma entryValue_Some (i : nat) (e v : value) :
  entryValue i e = Ok (Some v) ->
  exists time entry parameter,
    get "time" e = Ok time /\ index i time = Ok entry /\
    truthy entry = true /\ get "parameter" entry = Ok parameter /\
    truthy parameter = true /\ get "parameterName" parameter = Ok v.
Proof.
  unfold entryValue. intros H.
  bind_inv H. bind_inv H. bind_inv H. bind_inv H. bind_inv H. bind_inv H.
  injection H as <-. apply negb_false_iff in E1, E3. eauto 10.
Qed.

Lemma entryValue_object (i : nat) (e v : value) :
  entryValue i e = Ok (Some v) -> is_object e = true.
Proof.
  intros H. destruct (entryValue_Some _ _ _ H)
    as (time & entry & p & Ht & Hi & _).
  destruct (get_object _ _ _ Ht (index_Ok_not_nullish _ _ _ Hi) eq_refl)
    as [props ->].
  reflexivity.
Qed.

(** Tier 1: a value set by PoP6h is kept. *)
Lemma rainFallback_kept (ws : value) (i : nat) (fc : forecast) :
  rain fc <> [] -> rainFallback ws i fc = Ok fc.
Proof.
  intros H. unfold rainFallback. cbn [truthy].
  destruct (rain fc); [congruence | reflexivity].
Qed.

(** Tier 2: the first PoP12h element has a value at [i]. *)
Lemma rainFallback_PoP12h (ws : list value) (i : nat) (fc : forecast)
      (pop12h v : value) :
  rain fc = [] ->
  find_in (named "PoP12h") ws = Ok pop12h ->
  entryValue i pop12h = Ok (Some v) ->
  rainFallback (VArr ws) i fc =
    (s <- to_string v ;; Ok (set_rain (s ++ utf16 "%") fc)).
Proof.
  intros Hr Hfind Hv.
  pose proof (object_truthy _ (entryValue_object _ _ _ Hv)) as Htruthy.
  destruct (entryValue_Some _ _ _ Hv)
    as (time & entry & p & Ht & Hi & He & Hp & _ & Hn).
  unfold rainFallback. rewrite Hr. cbn [truthy negb find].
  rewrite Hfind; cbn [bind]. rewrite Htruthy.
  rewrite Ht; cbn [bind]. rewrite Hi; cbn [bind]. rewrite He.
  rewrite Hp; cbn [bind]. rewrite Hn; cbn [bind].
  unfold add_str. now destruct (to_string v).
Qed.

(** Tier 3: no PoP12h element, or none of its entries at [i]. *)
Lemma rainFallback_default (ws : list value) (i : nat) (fc : forecast)
      (pop12h : value) :
  rain fc = [] ->
  find_in (named "PoP12h") ws = Ok pop12h ->
  (truthy pop12h = false \/
   exists time entry,
     get "time" pop12h = Ok time /\ index i time = Ok entry /\
     truthy entry = false) ->
  rainFallback (VArr ws) i fc = Ok (set_rain "0%" fc).
Proof.
  intros Hr Hfind Hno. unfold rainFallback. rewrite Hr.
  cbn [truthy negb find]. rewrite Hfind; cbn [bind].
  destruct Hno as [Hf | (time & entry & Ht & Hi & He)].
  - rewrite Hf. cbn [bind]. now rewrite Hf.
  - destruct (truthy pop12h) eqn:Hp; cbn [bind].
    + rewrite Ht; cbn [bind]. rewrite Hi; cbn [bind]. now rewrite He.
    + now rewrite Hp.
Qed.

Lemma initialForecast_fields (wx : value) (i : nat) (fc : forecast) :
  initialForecast wx i = Ok fc ->
  weather fc = VStr "" /\ rain fc = [] /\ minTemp fc = [] /\
  maxTemp fc = [] /\ comfort fc = VStr "" /\ windSpeed fc = VStr "".
Proof.
  unfold initialForecast. intros H.
  bind_inv H. bind_inv H. bind_inv H. bind_inv H.
  injection H as <-. repeat split.
Qed.

(** The fallback only writes [rain], and leaves it non-empty. *)
Lemma rainFallback_fields (ws : value) (i : nat) (fc fc' : forecast) :
  rainFallback ws i fc = Ok fc' ->
  startTime fc' = startTime fc /\ endTime fc' = endTime fc /\
  weather fc' = weather fc /\ minTemp fc' = minTemp fc /\
  maxTemp fc' = maxTemp fc /\ comfort fc' = comfort fc /\
  windSpeed fc' = windSpeed fc /\ rain fc' <> [] /\
  (rain fc <> [] -> rain fc' = rain fc).
Proof.
  unfold rainFallback. intros H. cbn [truthy] in H.
  destruct (rain fc) as [| c r] eqn:Hr; cbn [negb] in H.
  - bind_inv H. bind_inv H. destruct (truthy a0).
    + bind_inv H. bind_inv H. bind_inv H. bind_inv H.
      unfold add_str in H.
      destruct (to_string a4) as [s | |]; cbn [bind] in H;
        try discriminate H.
      injection H as <-. cbn. repeat split; try congruence.
      intros Hc. apply app_eq_nil in Hc. destruct Hc; discriminate.
    + injection H as <-. cbn. repeat split; congruence.
  - injection H as <-. repeat split; congruence.
Qed.

(** The loop pushes, for each index from [i] on, the forecast its
    iteration returns. *)
Lemma for_loop_nth (body : nat -> result forecast) (trips : nat) :
  forall i pushed l,
    for_loop body trips i pushed = Ok l ->
    exists l',
      l = pushed ++ l' /\ List.length l' = trips /\
      forall k fc, nth_error l' k = Some fc -> body (i + k) = Ok fc.
Proof.
  induction trips as [| n IH]; intros i pushed l H; cbn [for_loop] in H.
  - injection H as <-. exists []. rewrite app_nil_r. repeat split.
    intros [| k] fc; discriminate.
  - bind_inv H. rename a into fc0.
    destruct (IH _ _ _ H) as (l' & -> & Hlen & Hnth).
    exists (fc0 :: l'). rewrite <- app_assoc. repeat split.
    + cbn. now rewrite Hlen.
    + intros [| k] fc Hk; cbn in Hk.
      * injection Hk as <-. now rewrite Nat.add_0_r.
      * rewrite Nat.add_succ_r. now apply Hnth.
Qed.

Lemma find_array (p : value -> result bool) (ws w : value) :
  find p ws = Ok w -> exists l, ws = VArr l /\ find_in p l = Ok w.
Proof. destruct ws; simpl; try discriminate. eauto. Qed.

(** What a completed normalisation has gone through. *)
Lemma normalize_Ok (records t : value) (wd : weatherData) :
  normalize records t = Ok wd ->
  exists ws wx time,
    get "weatherElement" t = Ok (VArr ws) /\
    find_in (named "Wx") ws = Ok wx /\ truthy wx = true /\
    get "time" wx = Ok time /\
    (forall l, time = VArr l -> List.length (forecasts wd) = List.length l) /\
    forall i fc,
      nth_error (forecasts wd) i = Some fc ->
      forecastAt (VArr ws) wx i = Ok fc.
Proof.
  unfold normalize. intros H.
  bind_inv H. bind_inv H. bind_inv H. bind_inv H. bind_inv H.
  bind_inv H. bind_inv H. bind_inv H. bind_inv H.
  injection H as <-. cbn [forecasts].
  destruct (find_array _ _ _ E2) as (ws & -> & Hfind).
  apply negb_false_iff in E3.
  destruct (for_loop_nth _ _ _ _ _ E7) as (l' & -> & Hlen & Hnth).
  exists ws, a2, a3. repeat split; auto.
  intros l ->. cbn in E5. injection E5 as <-. cbn in E6.
  injection E6 as <-. cbn. rewrite Hlen. now rewrite Nat2Z.id.
Qed.

(** What a completed iteration has gone through. *)
Lemma forecastAt_Ok (ws : list value) (wx : value) (i : nat)
      (fc : forecast) :
  forecastAt (VArr ws) wx i = Ok fc ->
  exists fc0 fc1,
    initialForecast wx i = Ok fc0 /\
    forEach_in (processElement i) ws fc0 = Ok fc1 /\
    rainFallback (VArr ws) i fc1 = Ok fc.
Proof.
  unfold forecastAt. intros H. bind_inv H. bind_inv H. eauto.
Qed.

(** *** Normalisation completes on documents of the documented shape *)

Lemma typed_entryValue (i : nat) (el : value) :
  typed_element el ->
  entryValue i el = Ok None \/ exists s, entryValue i el = Ok (Some (VStr s)).
Proof.
  intros (n & times & Hn & Ht & Hall). unfold entryValue.
  rewrite Ht; cbn [bind index].
  destruct (nth_error times i) as [e |] eqn:Hi; [| now left].
  apply nth_error_In in Hi. rewrite Forall_forall in Hall.
  destruct (Hall e Hi) as (Hobj & p & s & Hp & Hpo & Hs).
  rewrite (object_truthy _ Hobj); cbn [negb]. rewrite Hp; cbn [bind].
  rewrite (object_truthy _ Hpo); cbn [negb]. rewrite Hs; cbn [bind].
  right. eauto.
Qed.

Lemma typed_dispatch (el : value) (s : jsstring) (fc : forecast) :
  typed_element el -> exists fc', dispatch el (VStr s) fc = Ok fc'.
Proof.
  intros (n & times & Hn & _). unfold dispatch. rewrite Hn; cbn [bind].
  repeat match goal with
         | |- context [if ?b then _ else _] => destruct b
         end; cbn; eauto.
Qed.

Lemma typed_processElement (i : nat) (el : value) (fc : forecast) :
  typed_element el -> exists fc', processElement i el fc = Ok fc'.
Proof.
  intros Hel. unfold processElement.
  destruct (typed_entryValue i el Hel) as [-> | [s ->]]; cbn [bind].
  - eauto.
  - now apply typed_dispatch.
Qed.

Lemma typed_forEach (i : nat) (ws : list value) :
  Forall typed_element ws ->
  forall fc, exists fc', forEach_in (processElement i) ws fc = Ok fc'.
Proof.
  induction 1 as [| el ws Hel _ IH]; intros fc; cbn [forEach_in].
  - eauto.
  - destruct (typed_processElement i el fc Hel) as [fc1 ->]. cbn [bind].
    apply IH.
Qed.

Lemma typed_named (name : jsstring) (el : value) :
  typed_element el -> exists b, named name el = Ok b.
Proof.
  intros (n & times & Hn & _). unfold named. rewrite Hn. cbn. eauto.
Qed.

Lemma typed_find (name : jsstring) (ws : list value) :
  Forall typed_element ws ->
  find_in (named name) ws = Ok VUndefined \/
  exists el, find_in (named name) ws = Ok el /\ typed_element el /\
             In el ws /\ named name el = Ok true.
Proof.
  induction 1 as [| el ws Hel _ IH]; cbn [find_in]; [now left |].
  destruct (typed_named name el Hel) as [b Hb]. rewrite Hb; cbn [bind].
  destruct b.
  - right. exists el. cbn. auto.
  - destruct IH as [-> | (el' & -> & H1 & H2 & H3)]; [now left |].
    right. exists el'. cbn. auto.
Qed.


Lemma typed_object (el : value) : typed_element el -> is_object el = true.
Proof.
  intros (n & times & Hn & _).
  destruct (get_object _ _ _ Hn eq_refl eq_refl) as [props ->]. reflexivity.
Qed.

Lemma typed_find_none (name : jsstring) (ws : list value) :
  Forall typed_element ws ->
  find_in (named name) ws = Ok VUndefined ->
  Forall (fun el => named name el = Ok false) ws.
Proof.
  induction 1 as [| el ws Hel _ IH]; cbn [find_in]; intros Hnone;
    [constructor |].
  destruct (typed_named name el Hel) as [b Hb]. rewrite Hb in Hnone.
  cbn [bind] in Hnone. destruct b.
  - injection Hnone as ->. apply typed_object in Hel. discriminate.
  - constructor; auto.
Qed.

Lemma typed_rainFallback (i : nat) (ws : list value) (fc : forecast) :
  Forall typed_element ws ->
  exists fc', rainFallback (VArr ws) i fc = Ok fc'.
Proof.
  intros Hws. unfold rainFallback.
  destruct (negb (truthy (VStr (rain fc)))); [| eauto].
  cbn [find].
  destruct (typed_find "PoP12h" ws Hws) as [-> | (el & -> & Hel & _)];
    cbn [bind truthy]; [eauto |].
  rewrite (object_truthy _ (typed_object _ Hel)).
  destruct Hel as (n & times & Hn & Ht & Hall).
  rewrite Ht; cbn [bind index].
  destruct (nth_error times i) as [e |] eqn:Hi; cbn [truthy]; [| eauto].
  apply nth_error_In in Hi. rewrite Forall_forall in Hall.
  destruct (Hall e Hi) as (Hobj & p & s & Hp & Hpo & Hs).
  rewrite (object_truthy _ Hobj). rewrite Hp; cbn [bind].
  rewrite Hs; cbn [bind]. cbn. eauto.
Qed.

Lemma typed_forecastAt (i : nat) (ws times : list value) (wx : value) :
  Forall typed_element ws ->
  get "time" wx = Ok (VArr times) ->
  Forall typed_entry times ->
  i < List.length times ->
  exists fc, forecastAt (VArr ws) wx i = Ok fc.
Proof.
  intros Hws Ht Hall Hi. unfold forecastAt, initialForecast.
  rewrite Ht; cbn [bind index].
  destruct (nth_error times i) as [e |] eqn:He;
    [| apply nth_error_None in He; lia].
  apply nth_error_In in He. rewrite Forall_forall in Hall.
  destruct (Hall e He) as (Hobj & _).
  destruct e; try discriminate. cbn [get bind forEach].
  destruct (typed_forEach i ws Hws
              (mkForecast (lookup "startTime" props) (lookup "endTime" props)
                          (VStr "") "" "" "" (VStr "") (VStr "")))
    as [fc1 E].
  cbn in E |- *. rewrite E; cbn [bind].
  now apply typed_rainFallback.
Qed.

Lemma for_loop_total (body : nat -> result forecast) (n : nat) :
  forall i pushed,
    (forall k, k < n -> exists fc, body (i + k) = Ok fc) ->
    exists l, for_loop body n i pushed = Ok l.
Proof.
  induction n as [| n IH]; intros i pushed H; cbn [for_loop].
  - eauto.
  - destruct (H 0 ltac:(lia)) as [fc E]. rewrite Nat.add_0_r in E.
    rewrite E; cbn [bind]. apply IH.
    intros k Hk. rewrite Nat.add_succ_l, <- Nat.add_succ_r. apply H. lia.
Qed.

(** On a township of the documented shape, with a Wx element,
    normalisation completes, with one forecast per Wx time entry. *)
Theorem typed_township_normalizes :
  forall records t ws,
    nullish records = false ->
    get "weatherElement" t = Ok (VArr ws) ->
    Forall typed_element ws ->
    Exists (fun el => named "Wx" el = Ok true) ws ->
    exists wd wx times,
      normalize records t = Ok wd /\
      find_in (named "Wx") ws = Ok wx /\
      get "time" wx = Ok (VArr times) /\
      List.length (forecasts wd) = List.length times.
Proof.
  intros records t ws Hrec Hws Hall Hex.
  destruct (get_total "locationName" t (get_Ok_not_nullish _ _ _ Hws))
    as [name Hname].
  destruct (get_total "issueTime" records Hrec) as [issue Hissue].
  destruct (typed_find "Wx" ws Hall) as [Hnone | (wx & Hfind & Hwx & _)].
  - exfalso. apply Exists_exists in Hex. destruct Hex as (el & Hin & Hel).
    pose proof (typed_find_none "Wx" ws Hall Hnone) as Hno.
    rewrite Forall_forall in Hno. specialize (Hno el Hin). congruence.
  - pose proof (object_truthy _ (typed_object _ Hwx)) as Htr.
    destruct Hwx as (n & times & Hn & Ht & Htimes).
    destruct (for_loop_total (forecastAt (VArr ws) wx) (List.length times)
                0 [])
      as [l Hl].
    { intros k Hk. cbn. now apply typed_forecastAt with (times := times). }
    exists (mkWeatherData name
              (if truthy issue then issue else VStr "未知發布時間") l),
           wx, times.
    assert (Hnorm : normalize records t =
                    Ok (mkWeatherData name
                          (if truthy issue then issue
                           else VStr "未知發布時間") l)).
    { unfold normalize. rewrite Hname, Hissue, Hws; cbn [bind find].
      rewrite Hfind; cbn [bind]. rewrite Htr; cbn [negb].
      rewrite Ht; cbn [bind get].
      change (str_eqb (utf16 "length") (utf16 "length")) with true.
      cbn [bind loop_trips]. rewrite Nat2Z.id, Hl. reflexivity. }
    repeat split; auto.
    destruct (normalize_Ok _ _ _ Hnorm)
      as (ws' & wx' & time' & Hws' & Hfind' & _ & Ht' & Hlen & _).
    rewrite Hws in Hws'. injection Hws' as <-.
    rewrite Hfind in Hfind'. injection Hfind' as <-.
    rewrite Ht in Ht'. injection Ht' as <-.
    now apply Hlen.
Qed.

(** Hence a request whose document leads to such a township is answered
    with the success response. *)
Corollary typed_document_succeeds (data records t : value)
          (ws : list value) :
  locate data = Ok (Township records t) ->
  get "weatherElement" t = Ok (VArr ws) ->
  Forall typed_element ws ->
  Exists (fun el => named "Wx" el = Ok true) ws ->
  exists wd,
    after_request (Resolved data) =
      Responded (mkResponse 200 (SuccessBody wd)).
Proof.
  intros Hloc Hws Hall Hex.
  destruct (locate_Township _ _ _ Hloc)
    as (locations & group & location & _ & Hl & _).
  destruct (typed_township_normalizes records t ws
              (get_Ok_not_nullish _ _ _ Hl) Hws Hall Hex)
    as (wd & _ & _ & Hnorm & _).
  exists wd. unfold after_request.
  now rewrite (try_block_located _ _ _ Hloc), Hnorm.
Qed.

(** *** C1, C2: precipitation probability *)

(** The forecast pushed at index [i] in terms of the element list. *)
Lemma pushed_forecast (records t : value) (ws : list value)
      (wd : weatherData) (i : nat) (fc : forecast) :
  get "weatherElement" t = Ok (VArr ws) ->
  normalize records t = Ok wd ->
  nth_error (forecasts wd) i = Some fc ->
  exists fc0 fc1,
    rain fc0 = [] /\
    fold_spec i ws fc0 fc1 /\
    rainFallback (VArr ws) i fc1 = Ok fc.
Proof.
  intros Hws Hnorm Hnth.
  destruct (normalize_Ok _ _ _ Hnorm)
    as (ws' & wx & time & Hws' & _ & _ & _ & _ & Hat).
  rewrite Hws in Hws'. injection Hws' as <-.
  destruct (forecastAt_Ok _ _ _ _ (Hat _ _ Hnth))
    as (fc0 & fc1 & Hinit & Heach & Hfall).
  exists fc0, fc1. split; [| split].
  - now apply initialForecast_fields in Hinit.
  - now apply forEach_spec.
  - exact Hfall.
Qed.

(** C1. In every completed normalisation and at every index [i] of its
    forecast list, [rain] is resolved in two tiers.  If a PoP6h element
    yields a value at [i] (the last one that does, should there be
    several), [rain] is that value followed by ["%"].  Otherwise, if the
    first PoP12h element has an [i]-th time entry carrying a value, [rain]
    is that value followed by ["%"].  On the sample township (two Wx
    periods, PoP6h [30] for the first only, PoP12h [70] for the second
    only; values given as strings or as numbers) the request succeeds
    with [rain] equal to ["30%"] and ["70%"]. *)
Theorem rain_two_tier_fallback :
  (forall records t ws wd i fc,
      get "weatherElement" t = Ok (VArr ws) ->
      normalize records t = Ok wd ->
      nth_error (forecasts wd) i = Some fc ->
      (forall v,
          last_yield "PoP6h" i ws = Some v ->
          exists s, to_string v = Ok s /\ rain fc = s ++ utf16 "%") /\
      (last_yield "PoP6h" i ws = None ->
       forall pop12h v,
         find_in (named "PoP12h") ws = Ok pop12h ->
         entryValue i pop12h = Ok (Some v) ->
         exists s, to_string v = Ok s /\ rain fc = s ++ utf16 "%")) /\
  (forall v30 v70,
      (v30 = VStr "30" /\ v70 = VStr "70") \/
      (v30 = VNum 30 /\ v70 = VNum 70) ->
      exists wd,
        after_request (Resolved (fallbackDocument v30 v70)) =
          Responded (mkResponse 200 (SuccessBody wd)) /\
        map rain (forecasts wd) = [utf16 "30%"; utf16 "70%"]).
Proof.
  split.
  - intros records t ws wd i fc Hws Hnorm Hnth.
    destruct (pushed_forecast _ _ _ _ _ _ Hws Hnorm Hnth)
      as (fc0 & fc1 & Hr0 & Hfold & Hfall).
    destruct Hfold as (_ & _ & _ & _ & _ & Hrain & _).
    split.
    + intros v Hv. rewrite Hv in Hrain.
      destruct Hrain as (s & Hs & Hr1). exists s. split; [exact Hs |].
      rewrite rainFallback_kept in Hfall.
      * injection Hfall as <-. exact Hr1.
      * rewrite Hr1. intros Hc. apply app_eq_nil in Hc.
        destruct Hc; discriminate.
    + intros Hnone pop12h v Hfind Hv. rewrite Hnone in Hrain.
      rewrite (rainFallback_PoP12h _ _ _ _ _ (eq_trans Hrain Hr0) Hfind Hv)
        in Hfall.
      destruct (to_string v) as [s | |]; cbn [bind] in Hfall;
        try discriminate Hfall.
      injection Hfall as <-. exists s. split; reflexivity.
  - intros v30 v70 [[-> ->] | [-> ->]]; eexists; split; reflexivity.
Qed.

Lemma rain_two_tier_fallback_witness :
  exists s,
    to_string (VStr "70") = Ok s /\
    rain (mkForecast (VStr "12:00") (VStr "18:00") (VStr "短暫雨")
                     "70%" "" "" (VStr "") (VStr ""))
    = s ++ utf16 "%".
Proof.
  refine (proj2 (proj1 rain_two_tier_fallback
            (obj []) (township "臺東市"
               [element "Wx" [entry "06:00" "12:00" (VStr "晴天");
                              entry "12:00" "18:00" (VStr "短暫雨")];
                element "PoP6h" [entry "06:00" "12:00" (VStr "30")];
                element "PoP12h" [VNull; entry "12:00" "18:00" (VStr "70")]])
            _ _ 1 _ eq_refl eq_refl eq_refl)
          eq_refl
          (element "PoP12h" [VNull; entry "12:00" "18:00" (VStr "70")])
          (VStr "70") eq_refl eq_refl).
Defined.

(** X9.  Tier 3, as the fallback is written: when no PoP6h element yields a
    value at [i] and the element list has no PoP12h element, or the first
    one has no (truthy) [i]-th time entry, [rain] is ["0%"]. *)
Lemma rain_defaults_to_zero (records t : value) (ws : list value)
      (wd : weatherData) (i : nat) (fc : forecast) (pop12h : value) :
  get "weatherElement" t = Ok (VArr ws) ->
  normalize records t = Ok wd ->
  nth_error (forecasts wd) i = Some fc ->
  last_yield "PoP6h" i ws = None ->
  find_in (named "PoP12h") ws = Ok pop12h ->
  (truthy pop12h = false \/
   exists time entry,
     get "time" pop12h = Ok time /\ index i time = Ok entry /\
     truthy entry = false) ->
  rain fc = utf16 "0%".
Proof.
  intros Hws Hnorm Hnth Hnone Hfind Hno.
  destruct (pushed_forecast _ _ _ _ _ _ Hws Hnorm Hnth)
    as (fc0 & fc1 & Hr0 & Hfold & Hfall).
  destruct Hfold as (_ & _ & _ & _ & _ & Hrain & _).
  rewrite Hnone in Hrain.
  rewrite (rainFallback_default _ _ _ _ (eq_trans Hrain Hr0) Hfind Hno)
    in Hfall.
  now injection Hfall as <-.
Qed.

(** C2, on the code.  At index 0 of the sample township no PoP6h element
    yields a value, and the PoP12h element yields none either: its time
    entry has no [parameter], which the [forEach] callback skips.  The
    fallback reads [parameter.parameterName] of that entry all the same,
    the read throws, and the request ends in HTTP 500 instead of a
    forecast with [rain = "0%"]. *)
Theorem bare_PoP12h_entry_is_500 :
  last_yield "PoP6h" 0 bareFallbackElements = None /\
  find_in (named "PoP12h") bareFallbackElements
    = Ok (element "PoP12h" [bareEntry "06:00" "12:00"]) /\
  entryValue 0 (element "PoP12h" [bareEntry "06:00" "12:00"]) = Ok None /\
  processElement 0 (element "PoP12h" [bareEntry "06:00" "12:00"])
    = (fun fc => Ok fc) /\
  try_block bareFallbackDocument = Throw TypeError /\
  after_request (Resolved bareFallbackDocument) = Responded serverError.
Proof. repeat split. Qed.

(** *** C7: temperature *)



(** *** C10: fields without a source *)

Lemma no_value_last_yield (name : jsstring) (i : nat) (ws : list value) :
  no_value name i ws -> last_yield name i ws = None.
Proof.
  induction 1 as [| e ws He Hws IH]; cbn [last_yield]; [reflexivity |].
  rewrite IH. unfold yields.
  destruct (named name e) as [[|] | |]; try reflexivity.
  now rewrite (He eq_refl).
Qed.

(** Three ways in which an element has no value at [i]: it is absent,
    its time list is too short, or the entry has no [parameter]. *)
Lemma absent_no_value (name : jsstring) (i : nat) (ws : list value) :
  Forall (fun e => named name e <> Ok true) ws -> no_value name i ws.
Proof.
  unfold no_value. apply Forall_impl. intros e Hne He. congruence.
Qed.

Lemma short_time_list_no_value (i : nat) (e : value) (times : list value) :
  get "time" e = Ok (VArr times) ->
  List.length times <= i ->
  entryValue i e = Ok None.
Proof.
  intros Ht Hlen. unfold entryValue. rewrite Ht; cbn [bind index].
  apply nth_error_None in Hlen. now rewrite Hlen.
Qed.

Lemma no_parameter_no_value (i : nat) (e time entry : value) :
  get "time" e = Ok time ->
  index i time = Ok entry ->
  get "parameter" entry = Ok VUndefined ->
  entryValue i e = Ok None.
Proof.
  intros Ht Hi Hp. unfold entryValue. rewrite Ht; cbn [bind].
  rewrite Hi; cbn [bind]. destruct (truthy entry); [| reflexivity].
  cbn [negb]. now rewrite Hp.
Qed.

(** C10. In every completed normalisation and at every index [i] of its
    forecast list: [weather], [minTemp] and [maxTemp], [comfort],
    [windSpeed] are the empty string when no element named ["Wx"],
    ["T"], ["CI"], ["Ws"] respectively yields a value at [i], while
    [rain] is never empty.  The sample township shows a success response
    whose periods have empty fields and [rain = "0%"]. *)
Theorem fields_default_to_empty :
  (forall records t ws wd i fc,
      get "weatherElement" t = Ok (VArr ws) ->
      normalize records t = Ok wd ->
      nth_error (forecasts wd) i = Some fc ->
      (no_value "Wx" i ws -> weather fc = VStr "") /\
      (no_value "T" i ws -> minTemp fc = utf16 "" /\ maxTemp fc = utf16 "") /\
      (no_value "CI" i ws -> comfort fc = VStr "") /\
      (no_value "Ws" i ws -> windSpeed fc = VStr "") /\
      rain fc <> utf16 "") /\
  after_request (Resolved sparseDocument) =
    Responded
      (mkResponse 200
         (SuccessBody
            (mkWeatherData (VStr "臺東市")
               (VStr "2024-05-01T11:00:00+08:00")
               [mkForecast (VStr "06:00") (VStr "09:00") (VStr "")
                           "0%" "25°C" "25°C" (VStr "") (VStr "");
                mkForecast (VStr "09:00") (VStr "12:00") (VStr "")
                           "0%" "" "" (VStr "") (VStr "")]))).
Proof.
  split; [| vm_compute; reflexivity].
  intros records t ws wd i fc Hws Hnorm Hnth.
  destruct (normalize_Ok _ _ _ Hnorm)
    as (ws' & wx & time & Hws' & _ & _ & _ & _ & Hat).
  rewrite Hws in Hws'. injection Hws' as <-.
  destruct (forecastAt_Ok _ _ _ _ (Hat _ _ Hnth))
    as (g0 & g1 & Hinit & Heach & Hfall).
  apply forEach_spec in Heach.
  destruct (initialForecast_fields _ _ _ Hinit)
    as (I1 & I2 & I3 & I4 & I5 & I6).
  destruct Heach as (_ & _ & F3 & F4 & F5 & _ & F7).
  destruct (rainFallback_fields _ _ _ _ Hfall)
    as (_ & _ & R3 & R4 & R5 & R6 & R7 & R8 & _).
  change (utf16 "") with (@nil N) in *.
  repeat split.
  - intros H. rewrite (no_value_last_yield _ _ _ H) in F3. congruence.
  - rewrite (no_value_last_yield _ _ _ H) in F7. destruct F7. congruence.
  - rewrite (no_value_last_yield _ _ _ H) in F7. destruct F7. congruence.
  - intros H. rewrite (no_value_last_yield _ _ _ H) in F4. congruence.
  - intros H. rewrite (no_value_last_yield _ _ _ H) in F5. congruence.
  - exact R8.
Qed.

Lemma fields_default_to_empty_witness :
  weather (mkForecast (VStr "09:00") (VStr "12:00") (VStr "")
                      "0%" "" "" (VStr "") (VStr "")) = VStr "".
Proof.
  refine (proj1 (proj1 fields_default_to_empty
            (obj []) (township "臺東市" sparseElements)
            _ _ 1 _ eq_refl eq_refl eq_refl) _).
  repeat constructor; vm_compute; discriminate.
Defined.

End Properties.

(* ================================================================== *)
(** ** The heap model agrees with the tree model *)
(* ================================================================== *)

Module Purity.
Import JS Server Fixtures.
Import Heap Refinement.

(** *** Reads *)

Section Simulation.
Variable hin : heap.

Lemma nth_error_input (fr : heap) (a : nat) (c : cell) :
  nth_error hin a = Some c -> nth_error (hin ++ fr) a = Some c.
Proof.
  intros H. rewrite nth_error_app1; [exact H |].
  apply nth_error_Some. congruence.
Qed.

Lemma repr_truthy (v : value) (x : hval) :
  repr hin v x -> htruthy x = truthy v.
Proof. destruct 1; reflexivity. Qed.

Lemma repr_strict_eq (v : value) (x : hval) (lit : jsstring) :
  repr hin v x -> hstrict_eq_str x lit = strict_eq_str v lit.
Proof. destruct 1; reflexivity. Qed.

Lemma repr_lookup (a : nat) (k : jsstring) vp hp :
  Forall2 (fun kv kx => fst kv = fst kx /\
                        repr hin (snd kv) (snd kx) /\ below a (snd kx))
          vp hp ->
  repr hin (lookup k vp) (hlookup k hp).
Proof.
  induction 1 as [| [k1 v1] [k2 x2] vp hp (Hk & Hr & _) _ IH]; cbn.
  - constructor.
  - cbn in Hk, Hr. subst k2. destruct (str_eqb k1 k); assumption.
Qed.

Lemma get_agrees (fr : heap) (k : jsstring) (v : value) (x : hval) :
  repr hin v x -> agrees hin (get k v) (get_in (hin ++ fr) k x).
Proof.
  destruct 1; cbn; try constructor.
  - match goal with
    | |- context [str_eqb k ?l] => destruct (str_eqb k l)
    end; constructor.
  - rewrite (nth_error_input _ _ _ H). cbn.
    rewrite (Forall2_length H0).
    match goal with
    | |- context [str_eqb k ?l] => destruct (str_eqb k l)
    end; constructor.
  - rewrite (nth_error_input _ _ _ H). cbn.
    now apply repr_lookup with (a := a).
Qed.

Lemma index_agrees (fr : heap) (i : nat) (v : value) (x : hval) :
  repr hin v x -> agrees hin (index i v) (index_in (hin ++ fr) i x).
Proof.
  destruct 1; cbn; try constructor.
  - destruct (nth_error s i); constructor.
  - rewrite (nth_error_input _ _ _ H). cbn.
    clear H. revert i.
    induction H0 as [| v x vl hl [Hr _] _ IH]; intros [| i]; cbn;
      try constructor; auto.
  - rewrite (nth_error_input _ _ _ H). cbn.
    now apply repr_lookup with (a := a).
Qed.

Lemma repr_primitive_depth (v : value) (x : hval) :
  repr hin v x -> (forall a, x <> HRef a) -> depth v = 0.
Proof. destruct 1; intros Hp; try reflexivity; now destruct (Hp a). Qed.

Lemma child_depth (v : value) (x : hval) (a : nat) :
  (forall a', repr hin v (HRef a') -> depth v <= S a') ->
  repr hin v x -> below a x -> depth v <= a.
Proof.
  intros IH Hr Hb. destruct x as [| | | | | a'];
    try (rewrite (repr_primitive_depth _ _ Hr); [lia | discriminate]).
  cbn in Hb. specialize (IH a' Hr). lia.
Qed.

Lemma repr_depth (v : value) :
  forall a, repr hin v (HRef a) -> depth v <= S a.
Proof.
  induction v as [| | b | n | s | l IH | p IH] using value_ind_nested;
    intros a H; inversion H as [| | | | | a0 hl vl Hc F | a0 hp vp Hc F];
    subst; cbn [depth]; apply le_n_S; clear H Hc.
  - induction F as [| v x vl hl' [Hr Hb] _ IHF]; cbn; [lia |].
    inversion IH as [| ? ? Hv Hrest]; subst.
    apply Nat.max_lub; [| now apply IHF].
    now apply (child_depth v x a).
  - induction F as [| [k v] [k' x] vl hl' (_ & Hr & Hb) _ IHF];
      cbn; [lia |].
    inversion IH as [| ? ? Hv Hrest]; subst. cbn in *.
    apply Nat.max_lub; [| now apply IHF].
    now apply (child_depth v x a).
Qed.

(** Followed deep enough, a represented value gives back its tree, in
    any heap that extends the input heap. *)
Lemma snapshot_repr (fr : heap) (v : value) :
  forall x fuel,
    repr hin v x -> depth v <= fuel ->
    snapshot fuel (hin ++ fr) x = Some v.
Proof.
  induction v as [| | b | n | s | l IH | p IH] using value_ind_nested;
    intros x fuel H Hd;
    inversion H as [| | | | | a0 hl vl Hc F | a0 hp vp Hc F];
    subst; try (destruct fuel; reflexivity); cbn [depth] in Hd;
    (destruct fuel as [| fuel]; [lia |]); apply le_S_n in Hd;
    cbn [snapshot]; rewrite (nth_error_input _ _ _ Hc); clear H Hc.
  - assert (E : all_some (map (snapshot fuel (hin ++ fr)) hl) = Some l);
      [| now rewrite E].
    induction F as [| v x vl hl' [Hr _] _ IHF]; cbn in *; [reflexivity |].
    inversion IH as [| ? ? Hv Hrest]; subst.
    rewrite (Hv x fuel Hr); [| lia].
    rewrite IHF; [reflexivity | assumption | lia].
  - assert (E : all_some
                  (map (fun kv => option_map (pair (fst kv))
                                    (snapshot fuel (hin ++ fr) (snd kv)))
                       hp) = Some p);
      [| now rewrite E].
    induction F as [| [k v] [k' x] vl hl' (Hk & Hr & _) _ IHF];
      cbn in *; [reflexivity |].
    inversion IH as [| ? ? Hv Hrest]; subst. cbn in *.
    rewrite (Hv x fuel Hr); [| lia].
    cbn. rewrite IHF; [reflexivity | assumption | lia].
Qed.

Lemma snapshot_input (fr : heap) (v : value) (x : hval) :
  repr hin v x ->
  snapshot (List.length (hin ++ fr)) (hin ++ fr) x = Some v.
Proof.
  intros H. apply snapshot_repr; [exact H |].
  destruct x as [| | | | | a];
    try (rewrite (repr_primitive_depth _ _ H); [lia | discriminate]).
  pose proof (repr_depth _ _ H) as Hd.
  assert (a < List.length hin).
  { inversion H; subst; apply nth_error_Some; congruence. }
  rewrite length_app. lia.
Qed.

Lemma add_str_agrees (fr : heap) (v : value) (x : hval) (lit : jsstring) :
  repr hin v x -> add_str_in (hin ++ fr) x lit = add_str v lit.
Proof.
  intros H. unfold add_str_in. now rewrite (snapshot_input fr v x H).
Qed.

End Simulation.

(** *** Writes to the cells of the handler *)

Lemma replace_nth_length {A} (n : nat) (x : A) (l : list A) :
  List.length (replace_nth n x l) = List.length l.
Proof.
  revert n. induction l as [| y l IH]; intros [| n]; cbn; auto.
Qed.

Lemma replace_nth_same {A} (n : nat) (x : A) (l : list A) :
  n < List.length l -> nth_error (replace_nth n x l) n = Some x.
Proof.
  revert n. induction l as [| y l IH]; intros [| n] H; cbn in *;
    try lia; auto.
  apply IH. lia.
Qed.

Lemma replace_nth_other {A} (n m : nat) (x : A) (l : list A) :
  m <> n -> nth_error (replace_nth n x l) m = nth_error l m.
Proof.
  revert n m. induction l as [| y l IH]; intros [| n] [| m] H; cbn;
    try congruence; auto.
Qed.

Lemma replace_nth_app {A} (n : nat) (x : A) (l1 l2 : list A) :
  replace_nth (List.length l1 + n) x (l1 ++ l2) = l1 ++ replace_nth n x l2.
Proof. induction l1 as [| y l1 IH]; cbn; [reflexivity | now rewrite IH]. Qed.

Section Frame.
Variable hin : heap.

Lemma sim_ret {A B} fr Keep (Q : A -> B -> heap -> Prop) a b :
  Q a b fr -> sim hin fr Keep Q (Ok a) (ret b (hin ++ fr)).
Proof. intros H. exists fr. cbn. auto. Qed.

Lemma sim_throw {A B} fr Keep (Q : A -> B -> heap -> Prop) e :
  sim hin fr Keep Q (Throw e) (throw e (hin ++ fr)).
Proof. exists fr. cbn. auto. Qed.

(** A read of a value on both sides. *)
Lemma sim_read {A B} fr Keep (Q : A -> B -> heap -> Prop)
      (r : result value) (f : heap -> result hval)
      (K : value -> result A) (Kh : hval -> M B) :
  agrees hin r (f (hin ++ fr)) ->
  (forall w x, r = Ok w -> repr hin w x ->
               sim hin fr Keep Q (K w) (Kh x (hin ++ fr))) ->
  sim hin fr Keep Q (bind r K) (mbind (reading f) Kh (hin ++ fr)).
Proof.
  intros Hag HK. unfold mbind, reading.
  destruct r as [w | e |], (f (hin ++ fr)) as [x | e' |];
    cbn in Hag; try contradiction.
  - now apply HK.
  - subst e'. exists fr. cbn. auto.
  - exists fr. cbn. auto.
Qed.

(** A read of a string or a number on both sides. *)
Lemma sim_read_eq {A B T} fr Keep (Q : A -> B -> heap -> Prop)
      (r : result T) (f : heap -> result T)
      (K : T -> result A) (Kh : T -> M B) :
  f (hin ++ fr) = r ->
  (forall s, r = Ok s -> sim hin fr Keep Q (K s) (Kh s (hin ++ fr))) ->
  sim hin fr Keep Q (bind r K) (mbind (reading f) Kh (hin ++ fr)).
Proof.
  intros Hf HK. unfold mbind, reading. rewrite Hf.
  destruct r as [s | e |]; cbn.
  - now apply HK.
  - exists fr. cbn. auto.
  - exists fr. cbn. auto.
Qed.

(** Sequencing two steps. *)
Lemma sim_bind {A B A' B'} fr Keep
      (Q1 : A -> B -> heap -> Prop) (Q : A' -> B' -> heap -> Prop)
      (r : result A) (m : M B) (K : A -> result A') (Kh : B -> M B') :
  sim hin fr Keep Q1 r (m (hin ++ fr)) ->
  (forall a b fr',
      r = Ok a -> Q1 a b fr' ->
      List.length fr <= List.length fr' ->
      (forall j, Keep j -> j < List.length fr ->
                 nth_error fr' j = nth_error fr j) ->
      sim hin fr' (fun j => Keep j /\ j < List.length fr) Q
          (K a) (Kh b (hin ++ fr'))) ->
  sim hin fr Keep Q (bind r K) (mbind m Kh (hin ++ fr)).
Proof.
  intros (fr1 & Hh & Hlen & Hkeep & Hres) HK. unfold mbind.
  destruct (m (hin ++ fr)) as [rb h1]. cbn in Hh, Hres. subst h1.
  destruct r as [a | e |], rb as [b | e' |]; try contradiction; cbn.
  - destruct (HK a b fr1 eq_refl Hres Hlen Hkeep)
      as (fr2 & Hh2 & Hlen2 & Hkeep2 & Hres2).
    exists fr2. repeat split; auto; [lia |].
    intros j Hj Hlt. rewrite Hkeep2; [auto | auto | lia].
  - subst e'. exists fr1. cbn. auto.
  - exists fr1. cbn. auto.
Qed.

(** Sequencing, when the first step writes less than the whole. *)
Lemma sim_seq {A B A' B'} fr Keep1 Keep
      (Q1 : A -> B -> heap -> Prop) (Q : A' -> B' -> heap -> Prop)
      (r : result A) (m : M B) (K : A -> result A') (Kh : B -> M B') :
  sim hin fr Keep1 Q1 r (m (hin ++ fr)) ->
  (forall j, Keep j -> Keep1 j) ->
  (forall a b fr',
      r = Ok a -> Q1 a b fr' ->
      List.length fr <= List.length fr' ->
      (forall j, Keep1 j -> j < List.length fr ->
                 nth_error fr' j = nth_error fr j) ->
      sim hin fr' (fun j => Keep j /\ j < List.length fr) Q
          (K a) (Kh b (hin ++ fr'))) ->
  sim hin fr Keep Q (bind r K) (mbind m Kh (hin ++ fr)).
Proof.
  intros (fr1 & Hh & Hlen & Hkeep & Hres) Hsub HK. unfold mbind.
  destruct (m (hin ++ fr)) as [rb h1]. cbn in Hh, Hres. subst h1.
  destruct r as [a | e |], rb as [b | e' |]; try contradiction; cbn.
  - destruct (HK a b fr1 eq_refl Hres Hlen Hkeep)
      as (fr2 & Hh2 & Hlen2 & Hkeep2 & Hres2).
    exists fr2. repeat split; auto; [lia |].
    intros j Hj Hlt. rewrite Hkeep2; [apply Hkeep; auto | auto | lia].
  - subst e'. exists fr1. cbn. repeat split; auto.
  - exists fr1. cbn. repeat split; auto.
Qed.

Lemma sim_weaken {A B} fr (Keep Keep' : nat -> Prop)
      (Q Q' : A -> B -> heap -> Prop) r rh :
  sim hin fr Keep Q r rh ->
  (forall j, Keep' j -> Keep j) ->
  (forall a b fr', Q a b fr' -> Q' a b fr') ->
  sim hin fr Keep' Q' r rh.
Proof.
  intros (fr' & Hh & Hlen & Hkeep & Hres) HK HQ.
  exists fr'. repeat split; auto.
  destruct r, (fst rh); auto.
Qed.

Lemma nth_error_fresh (fr : heap) (j : nat) :
  nth_error (hin ++ fr) (List.length hin + j) = nth_error fr j.
Proof.
  rewrite nth_error_app2 by lia. f_equal. lia.
Qed.

(** An assignment to a property of an object allocated by the
    handler. *)
Lemma set_prop_fresh (fr : heap) (j : nat) (k : jsstring) (x : hval)
      (props : list (jsstring * hval)) :
  nth_error fr j = Some (CObj props) ->
  set_prop (HRef (List.length hin + j)) k x (hin ++ fr) =
    (Ok tt, hin ++ replace_nth j (CObj (assign k x props)) fr).
Proof.
  intros H. unfold set_prop. rewrite nth_error_fresh, H.
  now rewrite replace_nth_app.
Qed.

Lemma push_fresh (fr : heap) (j : nat) (x : hval) (l : list hval) :
  nth_error fr j = Some (CArr l) ->
  push (HRef (List.length hin + j)) x (hin ++ fr) =
    (Ok tt, hin ++ replace_nth j (CArr (l ++ [x])) fr).
Proof.
  intros H. unfold push. rewrite nth_error_fresh, H.
  now rewrite replace_nth_app.
Qed.

Lemma alloc_fresh (fr : heap) (c : cell) :
  alloc c (hin ++ fr) =
    (Ok (HRef (List.length hin + List.length fr)), hin ++ (fr ++ [c])).
Proof. unfold alloc. now rewrite length_app, app_assoc. Qed.

End Frame.

(** *** The callback and the fallback *)

Lemma bind_assoc {A B C} (m : result A) (f : A -> result B)
      (g : B -> result C) :
  bind (bind m f) g = bind m (fun x => bind (f x) g).
Proof. now destruct m. Qed.

Lemma bind_if {A B} (b : bool) (m1 m2 : result A) (g : A -> result B) :
  bind (if b then m1 else m2) g = if b then bind m1 g else bind m2 g.
Proof. now destruct b. Qed.

Section Handler.
Variable hin : heap.

Lemma fc_at_bound fr j fc : fc_at hin fr j fc -> j < List.length fr.
Proof.
  intros (? & ? & ? & ? & ? & H & _). apply nth_error_Some. congruence.
Qed.

(** One assignment to a field of the forecast object. *)
Lemma sim_assign fr j fc fc' (k : jsstring) (x : hval) c' :
  fc_at hin fr j fc ->
  (forall start stop w c ws,
      nth_error fr j =
        Some (forecastCell start stop w (rain fc) (minTemp fc)
                           (maxTemp fc) c ws) ->
      repr hin (startTime fc) start -> repr hin (endTime fc) stop ->
      repr hin (weather fc) w -> repr hin (comfort fc) c ->
      repr hin (windSpeed fc) ws ->
      set_prop (HRef (List.length hin + j)) k x (hin ++ fr)
        = (Ok tt, hin ++ replace_nth j (c' start stop w c ws) fr) /\
      exists start' stop' w' c0 ws',
        c' start stop w c ws =
          forecastCell start' stop' w' (rain fc') (minTemp fc')
                       (maxTemp fc') c0 ws' /\
        repr hin (startTime fc') start' /\ repr hin (endTime fc') stop' /\
        repr hin (weather fc') w' /\ repr hin (comfort fc') c0 /\
        repr hin (windSpeed fc') ws') ->
  sim hin fr (fun j' => j' <> j) (Qfc hin j) (Ok fc')
      (set_prop (HRef (List.length hin + j)) k x (hin ++ fr)).
Proof.
  intros Hat Hset.
  pose proof (fc_at_bound _ _ _ Hat) as Hj.
  destruct Hat as (start & stop & w & c & ws & Hc & R1 & R2 & R3 & R4 & R5).
  destruct (Hset _ _ _ _ _ Hc R1 R2 R3 R4 R5)
    as (E & start' & stop' & w' & c0 & ws' & Ec & R1' & R2' & R3' & R4' & R5').
  rewrite E. eexists. cbn. repeat split.
  - now rewrite replace_nth_length.
  - intros j' Hne _. now apply replace_nth_other.
  - unfold Qfc, fc_at. exists start', stop', w', c0, ws'.
    rewrite replace_nth_same by assumption. rewrite Ec. auto 10.
Qed.

Ltac assign_case :=
  intros ? ? ? ? ? Hc R1 R2 R3 R4 R5;
  split;
  [ rewrite (set_prop_fresh hin _ _ _ _ _ Hc); reflexivity
  | cbn; do 5 eexists; split; [reflexivity | auto 10] ].

Lemma processElement_sim fr j fc (i : nat) (e : value) (x : hval) :
  repr hin e x ->
  fc_at hin fr j fc ->
  sim hin fr (fun j' => j' <> j) (Qfc hin j)
      (Server.processElement i e fc)
      (Heap.processElement i (HRef (List.length hin + j)) x (hin ++ fr)).
Proof.
  intros He Hat.
  unfold Server.processElement, Heap.processElement, entryValue.
  rewrite !bind_assoc.
  apply sim_read; [now apply get_agrees |]. intros time xtime _ Htime.
  rewrite !bind_assoc.
  apply sim_read; [now apply index_agrees |]. intros te xte _ Hte.
  rewrite (repr_truthy _ _ _ Hte), bind_if.
  destruct (negb (truthy te)); [now apply sim_ret |].
  rewrite !bind_assoc.
  apply sim_read; [now apply get_agrees |]. intros p xp _ Hp.
  rewrite (repr_truthy _ _ _ Hp), bind_if.
  destruct (negb (truthy p)); [now apply sim_ret |].
  rewrite !bind_assoc.
  apply sim_read; [now apply get_agrees |]. intros v xv _ Hv.
  cbn [bind]. unfold dispatch.
  apply sim_read; [now apply get_agrees |]. intros n xn _ Hn.
  rewrite !(repr_strict_eq _ _ _ _ Hn).
  destruct (strict_eq_str n "Wx").
  { apply sim_assign with (fc := fc)
      (c' := fun start stop w c ws =>
               forecastCell start stop xv (rain fc) (minTemp fc)
                            (maxTemp fc) c ws); [assumption |].
    assign_case. }
  destruct (strict_eq_str n "PoP6h").
  { apply sim_read_eq; [now apply add_str_agrees |]. intros s _.
    apply sim_assign with (fc := fc)
      (c' := fun start stop w c ws =>
               forecastCell start stop w s (minTemp fc)
                            (maxTemp fc) c ws); [assumption |].
    assign_case. }
  destruct (strict_eq_str n "T").
  { unfold mbind at 1, hadd_str at 1, reading at 1.
    rewrite (add_str_agrees hin fr v xv _ Hv).
    destruct (add_str v "°C") as [s | err |] eqn:Es; cbn [bind];
      [| exists fr; cbn; auto | exists fr; cbn; auto].
    pose proof (fc_at_bound _ _ _ Hat) as Hj.
    destruct Hat as (start & stop & w & c & ws & Hc & R1 & R2 & R3 & R4 & R5).
    unfold mbind at 1. rewrite (set_prop_fresh hin _ _ _ _ _ Hc).
    unfold mbind at 1, hadd_str at 1, reading at 1.
    rewrite (add_str_agrees hin _ v xv _ Hv), Es.
    erewrite (set_prop_fresh hin); [| now apply replace_nth_same].
    eexists. cbn. repeat split.
    - now rewrite !replace_nth_length.
    - intros j' Hne _. now rewrite !replace_nth_other.
    - unfold Qfc, fc_at. exists start, stop, w, c, ws.
      rewrite replace_nth_same by (now rewrite replace_nth_length).
      cbn. auto 10. }
  destruct (strict_eq_str n "CI").
  { apply sim_assign with (fc := fc)
      (c' := fun start stop w c ws =>
               forecastCell start stop w (rain fc) (minTemp fc)
                            (maxTemp fc) xv ws); [assumption |].
    assign_case. }
  destruct (strict_eq_str n "Ws").
  { apply sim_assign with (fc := fc)
      (c' := fun start stop w c ws =>
               forecastCell start stop w (rain fc) (minTemp fc)
                            (maxTemp fc) c xv); [assumption |].
    assign_case. }
  now apply sim_ret.
Qed.

End Handler.

Section Handler2.
Variable hin : heap.

Lemma pure_read_get fr k v x :
  repr hin v x -> pure_read hin fr (get k v) (hget k x).
Proof. intros H. eexists. split; [reflexivity | now apply get_agrees]. Qed.

Lemma pure_read_index fr i v x :
  repr hin v x -> pure_read hin fr (index i v) (hindex i x).
Proof.
  intros H. eexists. split; [reflexivity | now apply index_agrees].
Qed.

Lemma pure_read_ret fr v x : repr hin v x -> pure_read hin fr (Ok v) (ret x).
Proof. intros H. eexists. split; [reflexivity | exact H]. Qed.

Lemma pure_read_bind fr r m K Kh :
  pure_read hin fr r m ->
  (forall w x, repr hin w x -> pure_read hin fr (K w) (Kh x)) ->
  pure_read hin fr (bind r K) (mbind m Kh).
Proof.
  intros (rh & Hm & Hag) HK. unfold pure_read, mbind. rewrite Hm.
  destruct r as [w | e |], rh as [x | e' |]; cbn in Hag;
    try contradiction.
  - now apply HK.
  - subst. eexists. split; [reflexivity | reflexivity].
  - eexists. split; [reflexivity | exact I].
Qed.

Lemma sim_pure_read {A B} fr Keep (Q : A -> B -> heap -> Prop)
      r m (K : value -> result A) (Kh : hval -> M B) :
  pure_read hin fr r m ->
  (forall w x, r = Ok w -> repr hin w x ->
               sim hin fr Keep Q (K w) (Kh x (hin ++ fr))) ->
  sim hin fr Keep Q (bind r K) (mbind m Kh (hin ++ fr)).
Proof.
  intros (rh & Hm & Hag) HK. unfold mbind. rewrite Hm.
  destruct r as [w | e |], rh as [x | e' |]; cbn in Hag;
    try contradiction.
  - now apply HK.
  - subst. exists fr. cbn. auto.
  - exists fr. cbn. auto.
Qed.

Lemma hnamed_read fr name v x :
  repr hin v x ->
  hnamed name x (hin ++ fr) =
    (match named name v with
     | Ok b => Ok b
     | Throw e => Throw e
     | Unmodelled => Unmodelled
     end, hin ++ fr).
Proof.
  intros Hr. unfold named, hnamed, mbind, hget, reading.
  pose proof (get_agrees hin fr "elementName" v x Hr) as Hag.
  destruct (get "elementName" v) as [n | e |],
           (get_in (hin ++ fr) "elementName" x) as [xn | e' |];
    cbn in Hag; try contradiction; cbn.
  - unfold ret. now rewrite (repr_strict_eq _ _ _ _ Hag).
  - now subst.
  - reflexivity.
Qed.

Lemma find_in_read fr name (a : nat) vl hl :
  Forall2 (fun v x => repr hin v x /\ below a x) vl hl ->
  pure_read hin fr (JS.find_in (named name) vl)
            (Heap.find_in (hnamed name) hl).
Proof.
  induction 1 as [| v x vl hl [Hr _] _ IH];
    cbn [JS.find_in Heap.find_in].
  - apply pure_read_ret. constructor.
  - unfold pure_read, mbind. rewrite (hnamed_read fr name v x Hr).
    destruct (named name v) as [[|] | e |]; cbn [bind].
    + now apply pure_read_ret.
    + exact IH.
    + eexists. split; reflexivity.
    + eexists. split; [reflexivity | exact I].
Qed.

Lemma find_read fr name v x :
  repr hin v x ->
  pure_read hin fr (JS.find (named name) v) (Heap.find (hnamed name) x).
Proof.
  intros H. destruct H; cbn;
    try (eexists; split; [reflexivity | reflexivity]).
  - unfold pure_read, Heap.find.
    rewrite (nth_error_input _ _ _ _ H).
    now apply (find_in_read fr name a).
  - unfold pure_read, Heap.find.
    rewrite (nth_error_input _ _ _ _ H).
    eexists; split; reflexivity.
Qed.

Lemma forEach_in_sim (i j a : nat) vl hl :
  Forall2 (fun v x => repr hin v x /\ below a x) vl hl ->
  forall fr fc,
    fc_at hin fr j fc ->
    sim hin fr (fun j' => j' <> j) (Qfc hin j)
        (JS.forEach_in (Server.processElement i) vl fc)
        (Heap.forEach_in
           (Heap.processElement i (HRef (List.length hin + j))) hl
           (hin ++ fr)).
Proof.
  induction 1 as [| v x vl hl [Hr _] _ IH]; intros fr fc Hat; cbn.
  - now apply sim_ret.
  - eapply sim_bind.
    + now apply processElement_sim.
    + intros fc' [] fr' _ Hat' _ _.
      eapply sim_weaken; [apply IH, Hat' | intros j' [H _]; exact H | auto].
Qed.

Lemma forEach_sim (i j : nat) v x fr fc :
  repr hin v x ->
  fc_at hin fr j fc ->
  sim hin fr (fun j' => j' <> j) (Qfc hin j)
      (JS.forEach (Server.processElement i) v fc)
      (Heap.forEach (Heap.processElement i (HRef (List.length hin + j))) x
                    (hin ++ fr)).
Proof.
  intros H Hat. destruct H; cbn; try (exists fr; cbn; auto; fail).
  - unfold Heap.forEach. rewrite (nth_error_input _ _ _ _ H).
    now apply (forEach_in_sim i j a).
  - unfold Heap.forEach. rewrite (nth_error_input _ _ _ _ H).
    exists fr; cbn; auto.
Qed.

End Handler2.

Lemma bind_Ok {A} (m : result A) : bind m Ok = m.
Proof. now destruct m. Qed.

Section Handler3.
Variable hin : heap.

Ltac assign_case :=
  intros ? ? ? ? ? Hc R1 R2 R3 R4 R5;
  split;
  [ rewrite (set_prop_fresh hin _ _ _ _ _ Hc); reflexivity
  | cbn; do 5 eexists; split; [reflexivity | auto 10] ].

Lemma rain_read fr j fc :
  fc_at hin fr j fc ->
  hget "rain" (HRef (List.length hin + j)) (hin ++ fr)
    = (Ok (HStr (rain fc)), hin ++ fr).
Proof.
  intros (start & stop & w & c & ws & Hc & _).
  unfold hget, reading, get_in. rewrite nth_error_fresh, Hc.
  reflexivity.
Qed.

Lemma rainFallback_sim fr j fc (i : nat) (ws : value) (xws : hval) :
  repr hin ws xws ->
  fc_at hin fr j fc ->
  sim hin fr (fun j' => j' <> j) (Qfc hin j)
      (Server.rainFallback ws i fc)
      (Heap.rainFallback xws i (HRef (List.length hin + j)) (hin ++ fr)).
Proof.
  intros Hws Hat. unfold Server.rainFallback, Heap.rainFallback.
  unfold mbind at 1. rewrite (rain_read _ _ _ Hat).
  change (htruthy (HStr (rain fc))) with (truthy (VStr (rain fc))).
  destruct (negb (truthy (VStr (rain fc)))); [| now apply sim_ret].
  apply sim_pure_read; [now apply find_read |]. intros pop xpop _ Hpop.
  apply sim_pure_read.
  { rewrite (repr_truthy _ _ _ Hpop). destruct (truthy pop).
    - apply pure_read_bind; [now apply pure_read_get |].
      intros time xtime Htime. now apply pure_read_index.
    - now apply pure_read_ret. }
  intros entry xentry _ Hentry.
  rewrite (repr_truthy _ _ _ Hentry). destruct (truthy entry).
  - apply sim_read; [now apply get_agrees |]. intros time xtime _ Htime.
    apply sim_read; [now apply index_agrees |]. intros te xte _ Hte.
    apply sim_read; [now apply get_agrees |]. intros p xp _ Hp.
    apply sim_read; [now apply get_agrees |]. intros v xv _ Hv.
    apply sim_read_eq; [now apply add_str_agrees |]. intros s _.
    apply sim_assign with (fc := fc)
      (c' := fun start stop w c ws =>
               forecastCell start stop w s (minTemp fc)
                            (maxTemp fc) c ws); [assumption |].
    assign_case.
  - apply sim_assign with (fc := fc)
      (c' := fun start stop w c ws =>
               forecastCell start stop w "0%" (minTemp fc)
                            (maxTemp fc) c ws); [assumption |].
    assign_case.
Qed.

Lemma fc_at_kept fr fr' j fc :
  nth_error fr' j = nth_error fr j -> fc_at hin fr j fc ->
  fc_at hin fr' j fc.
Proof.
  intros E (start & stop & w & c & ws & Hc & R).
  exists start, stop, w, c, ws. rewrite E. auto.
Qed.

Lemma sim_after {A B} fr fr1 (Keep : nat -> Prop)
      (Q : A -> B -> heap -> Prop) r rh :
  List.length fr <= List.length fr1 ->
  (forall j, Keep j -> j < List.length fr ->
             nth_error fr1 j = nth_error fr j) ->
  sim hin fr1 (fun j => Keep j /\ j < List.length fr) Q r rh ->
  sim hin fr Keep Q r rh.
Proof.
  intros Hlen Hkeep (fr2 & Hh & Hlen2 & Hkeep2 & Hres).
  exists fr2. repeat split; auto; [lia |].
  intros j Hj Hlt. rewrite Hkeep2; [auto | auto | lia].
Qed.

Lemma iteration_sim fr jf jw cityv upd fcs (i : nat)
      (ws wx : value) (xws xwx : hval) :
  repr hin ws xws -> repr hin wx xwx ->
  out_at hin fr jf jw cityv upd fcs ->
  sim hin fr (fun j => j <> jf)
      (fun fc (_ : unit) fr' => out_at hin fr' jf jw cityv upd (fcs ++ [fc]))
      (Server.forecastAt ws wx i)
      (Heap.iteration (HRef (List.length hin + jw)) xws xwx i (hin ++ fr)).
Proof.
  intros Hws Hwx Hout.
  unfold Server.forecastAt, initialForecast, Heap.iteration.
  rewrite !bind_assoc.
  apply sim_read; [now apply get_agrees |]. intros time xtime _ Htime.
  rewrite !bind_assoc.
  apply sim_read; [now apply index_agrees |]. intros en xen _ Hen.
  rewrite !bind_assoc.
  apply sim_read; [now apply get_agrees |]. intros start xstart _ Hstart.
  rewrite !bind_assoc.
  apply sim_read; [now apply get_agrees |]. intros time' xtime' _ Htime'.
  rewrite !bind_assoc.
  apply sim_read; [now apply index_agrees |]. intros en' xen' _ Hen'.
  rewrite !bind_assoc.
  apply sim_read; [now apply get_agrees |]. intros stop xstop _ Hstop.
  cbn [bind].
  unfold mbind at 1. rewrite alloc_fresh.
  set (fc0 := mkForecast start stop (VStr "") "" "" "" (VStr "") (VStr "")).
  set (j := List.length fr).
  set (fr1 := fr ++ _).
  assert (Hat0 : fc_at hin fr1 j fc0).
  { exists xstart, xstop, (HStr ""), (HStr ""), (HStr "").
    split; [| repeat split; auto; constructor].
    unfold fr1, j. rewrite nth_error_app2 by lia.
    now rewrite Nat.sub_diag. }
  destruct Hout as (cx & ux & refs & Hwd & Rc & Ru & Harr & Hrefs).
  assert (Hjw : jw < List.length fr) by (apply nth_error_Some; congruence).
  assert (Hjf : jf < List.length fr) by (apply nth_error_Some; congruence).
  apply sim_after with (fr1 := fr1).
  { unfold fr1. rewrite length_app. lia. }
  { intros j' _ Hlt. unfold fr1. now apply nth_error_app1. }
  eapply sim_weaken with
    (Keep := fun j' => j' <> jf /\ j' < j)
    (Q := fun fc (_ : unit) fr' =>
            out_at hin fr' jf jw cityv upd (fcs ++ [fc]));
    [| tauto | auto].
  rewrite <- (bind_Ok (bind _ _)). rewrite bind_assoc.
  assert (Hlen1 : List.length fr1 = S j).
  { unfold fr1, j. rewrite length_app. cbn. lia. }
  eapply sim_seq with (Keep1 := fun j' => j' <> j) (Q1 := Qfc hin j);
    [now apply forEach_sim | intros j' [_ Hlt]; lia |].
  intros fc1 [] fr2 _ Hat1 Hlen2 Hkeep2.
  eapply sim_seq with (Keep1 := fun j' => j' <> j) (Q1 := Qfc hin j);
    [now apply rainFallback_sim | intros j' [[_ Hlt] _]; lia |].
  intros fc2 [] fr3 _ Hres3 Hlen3 Hkeep3.
  assert (Hold : forall j', j' < j -> nth_error fr3 j' = nth_error fr j').
  { intros j' Hlt. rewrite Hkeep3 by lia. rewrite Hkeep2 by lia.
    unfold fr1. apply nth_error_app1. exact Hlt. }
  (* push *)
  unfold mbind at 1, hget, reading, get_in.
  rewrite nth_error_fresh, (Hold jw Hjw), Hwd. cbn [hlookup].
  change (hlookup (utf16 "forecasts") _)
    with (HRef (List.length hin + jf)).
  rewrite (push_fresh hin fr3 jf _ refs)
    by (rewrite (Hold jf Hjf); exact Harr).
  assert (Hjf3 : jf < List.length fr3) by lia.
  eexists. cbn. repeat split.
  - rewrite replace_nth_length. lia.
  - intros j' [[[Hne Hlt] _] _] _.
    now rewrite replace_nth_other by assumption.
  - exists cx, ux, (refs ++ [HRef (List.length hin + j)]).
    assert (Hne : jw <> jf).
    { intros ->. rewrite Hwd in Harr. discriminate. }
    rewrite replace_nth_other by assumption.
    rewrite replace_nth_same by assumption.
    rewrite (Hold jw Hjw). repeat split; auto.
    apply Forall2_app.
    + eapply Forall2_impl; [| exact Hrefs].
      intros ref fc (jk & -> & Hk). exists jk. split; [reflexivity |].
      pose proof (fc_at_bound _ _ _ _ Hk) as Hjk.
      apply fc_at_kept with (fr := fr); [| exact Hk].
      rewrite replace_nth_other.
      * now apply Hold.
      * intros ->. destruct Hk as (? & ? & ? & ? & ? & Hk & _).
        rewrite Hk in Harr. discriminate.
    + constructor; [| constructor]. exists j. split; [reflexivity |].
      apply fc_at_kept with (fr := fr3); [| exact Hres3].
      apply replace_nth_other. unfold j. lia.
Qed.

End Handler3.

(** *** The loop and the output *)

Section Handler4.
Variable hin : heap.

Lemma loop_trips_agrees fr v x :
  repr hin v x ->
  (fun h => match x with
            | HUndefined | HNull => Ok 0
            | HBool b => Ok (if b then 1 else 0)
            | HNum n => Ok (Z.to_nat n)
            | HStr _ => Unmodelled
            | HRef _ =>
                match snapshot (List.length h) h x with
                | Some tree => loop_trips tree
                | None => Unmodelled
                end
            end) (hin ++ fr) = loop_trips v.
Proof.
  intros H. cbn beta.
  destruct H; try reflexivity.
  - rewrite (snapshot_input hin fr (VArr vl) (HRef a)); [reflexivity |].
    now apply repr_arr with (hl := hl).
  - rewrite (snapshot_input hin fr (VObj vp) (HRef a)); [reflexivity |].
    now apply repr_obj with (hp := hp).
Qed.

Lemma for_loop_sim jf jw cityv upd (ws wx : value) (xws xwx : hval) :
  repr hin ws xws -> repr hin wx xwx ->
  forall trips i fr fcs,
    out_at hin fr jf jw cityv upd fcs ->
    sim hin fr (fun j => j <> jf)
        (fun l (_ : unit) fr' => out_at hin fr' jf jw cityv upd l)
        (Server.for_loop (Server.forecastAt ws wx) trips i fcs)
        (Heap.for_loop
           (Heap.iteration (HRef (List.length hin + jw)) xws xwx)
           trips i (hin ++ fr)).
Proof.
  intros Hws Hwx. induction trips as [| n IH]; intros i fr fcs Hout;
    cbn [Server.for_loop Heap.for_loop].
  - now apply sim_ret.
  - eapply sim_bind with
      (Q1 := fun fc (_ : unit) fr' =>
               out_at hin fr' jf jw cityv upd (fcs ++ [fc])).
    + now apply iteration_sim.
    + intros fc [] fr' _ Hout' _ _.
      eapply sim_weaken;
        [apply IH, Hout' | intros j' [H _]; exact H | auto].
Qed.

Lemma normalize_sim fr (vr vt : value) (xr xt : hval) :
  repr hin vr xr -> repr hin vt xt ->
  sim hin fr (fun _ => True)
      (fun wd x fr' =>
         exists jf jw,
           x = HRef (List.length hin + jw) /\
           out_at hin fr' jf jw (city wd) (updateTime wd) (forecasts wd))
      (Server.normalize vr vt)
      (Heap.normalize xr xt (hin ++ fr)).
Proof.
  intros Hr Ht. unfold Server.normalize, Heap.normalize.
  apply sim_read; [now apply get_agrees |]. intros name xname _ Hname.
  apply sim_read; [now apply get_agrees |]. intros issue xissue _ Hissue.
  cbn zeta.
  unfold mbind at 1. rewrite alloc_fresh.
  unfold mbind at 1. rewrite alloc_fresh.
  set (jf := List.length fr).
  set (fr1 := fr ++ [CArr []]).
  set (upd := if truthy issue then issue else VStr "未知發布時間").
  set (xupd := if htruthy xissue then xissue else HStr "未知發布時間").
  set (fr2 := fr1 ++ _).
  assert (Hlen1 : List.length fr1 = S jf).
  { unfold fr1, jf. rewrite length_app. cbn. lia. }
  assert (Hupd : repr hin upd xupd).
  { unfold upd, xupd. rewrite (repr_truthy _ _ _ Hissue).
    destruct (truthy issue); [exact Hissue | constructor]. }
  assert (Hout : out_at hin fr2 jf (S jf) name upd []).
  { exists xname, xupd, []. repeat split; auto.
    - unfold fr2. rewrite nth_error_app2 by lia.
      rewrite Hlen1, Nat.sub_diag. reflexivity.
    - unfold fr2, fr1. rewrite nth_error_app1
        by (rewrite length_app; cbn; fold jf; lia).
      rewrite nth_error_app2 by (fold jf; lia).
      fold jf. now rewrite Nat.sub_diag. }
  replace (List.length fr1) with (S jf) by auto.
  apply sim_after with (fr1 := fr2).
  { unfold fr2, fr1. rewrite !length_app. lia. }
  { intros j _ Hlt. unfold fr2, fr1.
    rewrite nth_error_app1 by (rewrite length_app; lia).
    now apply nth_error_app1. }
  apply sim_read; [now apply get_agrees |]. intros ws xws _ Hws.
  apply sim_pure_read; [now apply find_read |]. intros wx xwx _ Hwx.
  rewrite (repr_truthy _ _ _ Hwx).
  destruct (negb (truthy wx)); [apply sim_throw |].
  apply sim_read; [now apply get_agrees |]. intros time xtime _ Htime.
  apply sim_read; [now apply get_agrees |]. intros count xcount _ Hcount.
  unfold hloop_trips.
  apply sim_read_eq; [now apply loop_trips_agrees |]. intros trips _.
  eapply sim_seq with
    (Keep1 := fun j => j <> jf)
    (Q1 := fun l (_ : unit) fr' => out_at hin fr' jf (S jf) name upd l);
    [now apply for_loop_sim | intros j [_ Hlt]; fold jf in Hlt; lia |].
  intros l [] fr3 _ Hout3 _ _.
  apply sim_ret. exists jf, (S jf). split; [reflexivity | exact Hout3].
Qed.

Lemma repr_depth_le (v : value) (x : hval) :
  repr hin v x -> depth v <= List.length hin.
Proof.
  intros H. destruct x as [| | | | | a];
    try (rewrite (repr_primitive_depth _ _ _ H); [lia | discriminate]).
  pose proof (repr_depth _ _ _ H).
  assert (a < List.length hin).
  { inversion H; subst; apply nth_error_Some; congruence. }
  lia.
Qed.

Lemma snapshot_deep fr (v : value) (x : hval) (fuel : nat) :
  repr hin v x -> List.length hin <= fuel ->
  snapshot fuel (hin ++ fr) x = Some v.
Proof.
  intros H Hf. apply snapshot_repr; [exact H |].
  pose proof (repr_depth_le _ _ H). lia.
Qed.

Lemma snapshot_string (h : heap) (s : jsstring) (fuel : nat) :
  snapshot fuel h (HStr s) = Some (VStr s).
Proof. destruct fuel; reflexivity. Qed.

Lemma snapshot_ref (fuel : nat) (h : heap) (a : nat) :
  snapshot (S fuel) h (HRef a) =
    match nth_error h a with
    | Some (CArr l) => option_map VArr (all_some (map (snapshot fuel h) l))
    | Some (CObj props) =>
        option_map VObj
          (all_some
             (map (fun kv => option_map (pair (fst kv))
                                        (snapshot fuel h (snd kv)))
                  props))
    | None => None
    end.
Proof. reflexivity. Qed.

Lemma forecast_snapshot fr j fc :
  fc_at hin fr j fc ->
  snapshot (S (List.length hin)) (hin ++ fr)
           (HRef (List.length hin + j)) = Some (forecastValue fc).
Proof.
  intros (start & stop & w & c & ws & Hc & R1 & R2 & R3 & R4 & R5).
  rewrite snapshot_ref, nth_error_fresh, Hc. unfold forecastCell.
  cbn [map fst snd].
  rewrite (snapshot_deep fr _ _ _ R1), (snapshot_deep fr _ _ _ R2),
    (snapshot_deep fr _ _ _ R3), (snapshot_deep fr _ _ _ R4),
    (snapshot_deep fr _ _ _ R5) by lia.
  rewrite !snapshot_string. reflexivity.
Qed.

Lemma output_snapshot fr jf jw cityv upd fcs :
  out_at hin fr jf jw cityv upd fcs ->
  snapshot (3 + List.length hin) (hin ++ fr) (HRef (List.length hin + jw))
    = Some (VObj [(utf16 "city", cityv); (utf16 "updateTime", upd);
                  (utf16 "forecasts", VArr (map forecastValue fcs))]).
Proof.
  intros (cx & ux & refs & Hwd & Rc & Ru & Harr & Hrefs).
  change (3 + List.length hin) with (S (S (S (List.length hin)))).
  rewrite snapshot_ref, nth_error_fresh, Hwd.
  cbn [map fst snd].
  rewrite (snapshot_deep fr _ _ _ Rc), (snapshot_deep fr _ _ _ Ru) by lia.
  rewrite snapshot_ref, nth_error_fresh, Harr.
  assert (E : all_some
                (map (snapshot (S (List.length hin)) (hin ++ fr)) refs)
              = Some (map forecastValue fcs)).
  { clear Harr. induction Hrefs as [| ref fc refs fcs (j & -> & Hj) _ IH];
      [reflexivity |].
    cbn [map all_some].
    rewrite (forecast_snapshot fr j fc Hj).
    now rewrite IH. }
  rewrite E. reflexivity.
Qed.

End Handler4.

Lemma kept_prefix {A} (l l' : list A) :
  List.length l <= List.length l' ->
  (forall j, j < List.length l -> nth_error l' j = nth_error l j) ->
  exists t, l' = l ++ t.
Proof.
  revert l'. induction l as [| x l IH]; intros l' Hlen Hnth.
  - now exists l'.
  - destruct l' as [| y l']; [cbn in Hlen; lia |].
    assert (y = x).
    { specialize (Hnth 0 ltac:(cbn; lia)). cbn in Hnth. congruence. }
    subst y. destruct (IH l') as [t ->].
    + cbn in Hlen. lia.
    + intros j Hj. apply (Hnth (S j)). cbn. lia.
    + now exists t.
Qed.

(** One run from a heap that extends the heap of the document. *)
Lemma normalize_run (hin fr : heap) (vr vt : value) (xr xt : hval) :
  repr hin vr xr -> repr hin vt xt ->
  exists r new,
    Heap.normalize xr xt (hin ++ fr) = (r, (hin ++ fr) ++ new) /\
    match Server.normalize vr vt with
    | Ok wd =>
        exists out,
          r = Ok out /\
          snapshot (3 + List.length hin) ((hin ++ fr) ++ new) out
            = Some (weatherDataValue wd)
    | Throw e => r = Throw e
    | Unmodelled => r = Unmodelled
    end.
Proof.
  intros Hr Ht.
  destruct (normalize_sim hin fr vr vt xr xt Hr Ht)
    as (fr' & Hh & Hlen & Hkeep & Hres).
  destruct (Heap.normalize xr xt (hin ++ fr)) as [r h'].
  cbn in Hh, Hres. subst h'.
  destruct (kept_prefix fr fr' Hlen (fun j Hj => Hkeep j I Hj)) as [new ->].
  exists r, new. split; [now rewrite app_assoc |].
  destruct (Server.normalize vr vt) as [wd | e |], r as [out | e' |];
    try contradiction.
  - destruct Hres as (jf & jw & -> & Hout).
    eexists. split; [reflexivity |].
    rewrite <- app_assoc. now apply (output_snapshot hin _ jf).
  - now subst.
  - reflexivity.
Qed.

(** *** Loading a document *)

Lemma repr_extend (h t : heap) (v : value) :
  forall x, repr h v x -> repr (h ++ t) v x.
Proof.
  induction v as [| | b | n | s | l IH | p IH] using value_ind_nested;
    intros x H; inversion H as [| | | | | a hl vl Hc F | a hp vp Hc F];
    subst; try constructor.
  - apply repr_arr with (hl := hl); [now apply nth_error_input |].
    clear H Hc. induction F as [| v x vl hl' [Hr Hb] _ IHF];
      constructor; inversion IH; subst; auto.
  - apply repr_obj with (hp := hp); [now apply nth_error_input |].
    clear H Hc. induction F as [| [k v] [k' x] vl hl' (Hk & Hr & Hb) _ IHF];
      constructor; inversion IH; subst; cbn in *; auto.
Qed.

Lemma repr_below (h : heap) (v : value) (x : hval) :
  repr h v x -> below (List.length h) x.
Proof.
  destruct 1; cbn; auto; apply nth_error_Some; congruence.
Qed.

Lemma below_le (a b : nat) (x : hval) : below a x -> a <= b -> below b x.
Proof. destruct x; cbn; auto. lia. Qed.

(** Loading a tree gives a value that stands for it and leaves the cells
    already there as they are. *)
Lemma load_repr (v : value) :
  forall h, exists t, snd (load v h) = h ++ t /\
                      repr (snd (load v h)) v (fst (load v h)).
Proof.
  induction v as [| | b | n | s | l IH | p IH] using value_ind_nested;
    intros h; try (exists []; rewrite app_nil_r; split;
                   [reflexivity | constructor]).
  - cbn [load].
    set (members := fix members (l : list value) (h : heap) :=
           match l with
           | [] => ([], h)
           | v :: rest =>
               let (x, h1) := load v h in
               let (xs, h2) := members rest h1 in (x :: xs, h2)
           end).
    assert (Hm : forall h, exists t,
                   snd (members l h) = h ++ t /\
                   Forall2 (fun v x => repr (snd (members l h)) v x)
                           l (fst (members l h))).
    { clear h. induction IH as [| v l Hv _ IHl]; intros h; cbn [members].
      - exists []. rewrite app_nil_r. split; [reflexivity | constructor].
      - destruct (Hv h) as (t1 & E1 & R1).
        destruct (load v h) as [x h1]. cbn [fst snd] in E1, R1.
        destruct (IHl h1) as (t2 & E2 & R2).
        destruct (members l h1) as [xs h2]. cbn [fst snd] in E2, R2 |- *.
        subst h1 h2. exists (t1 ++ t2). split; [now rewrite app_assoc |].
        constructor; [now apply repr_extend | exact R2]. }
    destruct (Hm h) as (t & E & R).
    destruct (members l h) as [xs h']. cbn [fst snd] in E, R |- *.
    subst h'. exists (t ++ [CArr xs]). split; [now rewrite app_assoc |].
    apply repr_arr with (hl := xs).
    + now rewrite nth_error_app2, Nat.sub_diag by lia.
    + eapply Forall2_impl; [| exact R]. intros v x Hr. split.
      * now apply repr_extend.
      * now apply repr_below with (v := v).
  - cbn [load].
    set (members := fix members (p : list (jsstring * value)) (h : heap) :=
           match p with
           | [] => ([], h)
           | (k, v) :: rest =>
               let (x, h1) := load v h in
               let (xs, h2) := members rest h1 in ((k, x) :: xs, h2)
           end).
    assert (Hm : forall h, exists t,
                   snd (members p h) = h ++ t /\
                   Forall2 (fun kv kx =>
                              fst kv = fst kx /\
                              repr (snd (members p h)) (snd kv) (snd kx))
                           p (fst (members p h))).
    { clear h. induction IH as [| [k v] p Hv _ IHp]; intros h; cbn [members].
      - exists []. rewrite app_nil_r. split; [reflexivity | constructor].
      - cbn [snd] in Hv. destruct (Hv h) as (t1 & E1 & R1).
        destruct (load v h) as [x h1]. cbn [fst snd] in E1, R1.
        destruct (IHp h1) as (t2 & E2 & R2).
        destruct (members p h1) as [xs h2]. cbn [fst snd] in E2, R2 |- *.
        subst h1 h2. exists (t1 ++ t2). split; [now rewrite app_assoc |].
        constructor; [split; [reflexivity | now apply repr_extend]
                     | exact R2]. }
    destruct (Hm h) as (t & E & R).
    destruct (members p h) as [xs h']. cbn [fst snd] in E, R |- *.
    subst h'. exists (t ++ [CObj xs]). split; [now rewrite app_assoc |].
    apply repr_obj with (hp := xs).
    + now rewrite nth_error_app2, Nat.sub_diag by lia.
    + eapply Forall2_impl; [| exact R]. intros kv kx [Hk Hr].
      repeat split; auto.
      * now apply repr_extend.
      * now apply repr_below with (v := snd kv).
Qed.


(** *** C9: repeatable, and without writes to the document *)

(** C9. Normalisation writes no cell that existed before it ran, and run
    again on the same document it gives the same output.  For every heap
    [h] in which [records] and the selected township stand for the trees
    [vr] and [vt]: a run ends in a heap [h ++ new1], the cells of [h]
    unchanged; a second run from there ends in [(h ++ new1) ++ new2]; and
    both runs end the way the function [Server.normalize] on trees does,
    with the same error, or with two objects that stand for one and the
    same JSON value, the value of [Server.normalize vr vt]. *)
Theorem normalization_repeatable :
  forall (h : heap) (vr vt : value) (xr xt : hval),
    repr h vr xr -> repr h vt xt ->
    exists r1 new1 r2 new2,
      Heap.normalize xr xt h = (r1, h ++ new1) /\
      Heap.normalize xr xt (h ++ new1) = (r2, (h ++ new1) ++ new2) /\
      match Server.normalize vr vt with
      | Ok wd =>
          exists out1 out2,
            r1 = Ok out1 /\ r2 = Ok out2 /\
            snapshot (3 + List.length h) (h ++ new1) out1
              = Some (weatherDataValue wd) /\
            snapshot (3 + List.length h) ((h ++ new1) ++ new2) out2
              = Some (weatherDataValue wd)
      | Throw e => r1 = Throw e /\ r2 = Throw e
      | Unmodelled => r1 = Unmodelled /\ r2 = Unmodelled
      end.
Proof.
  intros h vr vt xr xt Hr Ht.
  destruct (normalize_run h [] vr vt xr xt Hr Ht) as (r1 & new1 & E1 & R1).
  rewrite app_nil_r in E1, R1.
  destruct (normalize_run h new1 vr vt xr xt Hr Ht) as (r2 & new2 & E2 & R2).
  exists r1, new1, r2, new2. repeat split; auto.
  destruct (Server.normalize vr vt) as [wd | e |]; auto.
  destruct R1 as (out1 & -> & S1), R2 as (out2 & -> & S2).
  exists out1, out2. auto.
Qed.



Ltac repr_sample :=
  repeat first
    [ reflexivity
    | (eapply repr_obj; [reflexivity |])
    | (eapply repr_arr; [reflexivity |])
    | constructor
    | split
    | (cbn; lia) ].

Lemma normalization_repeatable_witness :
  exists r1 new1 r2 new2,
    Heap.normalize (HRef 13) (HRef 9) sampleHeap = (r1, sampleHeap ++ new1) /\
    Heap.normalize (HRef 13) (HRef 9) (sampleHeap ++ new1)
      = (r2, (sampleHeap ++ new1) ++ new2) /\
    match Server.normalize sampleRecords sampleTownship with
    | Ok wd =>
        exists out1 out2,
          r1 = Ok out1 /\ r2 = Ok out2 /\
          snapshot (3 + List.length sampleHeap) (sampleHeap ++ new1) out1
            = Some (weatherDataValue wd) /\
          snapshot (3 + List.length sampleHeap)
                   ((sampleHeap ++ new1) ++ new2) out2
            = Some (weatherDataValue wd)
    | Throw e => r1 = Throw e /\ r2 = Throw e
    | Unmodelled => r1 = Unmodelled /\ r2 = Unmodelled
    end.
Proof.
  apply (normalization_repeatable sampleHeap sampleRecords sampleTownship
           (HRef 13) (HRef 9)); repr_sample.
Defined.

(** The two runs on the sample heap: the first allocates the cells 14 to
    16 and returns the object at 15, the second allocates 17 to 19 and
    returns the object at 18; the document cells are the same after
    both, and both objects serialise to the same value. *)
Example sample_runs :
  let run1 := Heap.normalize (HRef 13) (HRef 9) sampleHeap in
  let run2 := Heap.normalize (HRef 13) (HRef 9) (snd run1) in
  fst run1 = Ok (HRef 15) /\ fst run2 = Ok (HRef 18) /\
  firstn 14 (snd run1) = sampleHeap /\
  firstn 14 (snd run2) = sampleHeap /\
  Server.normalize sampleRecords sampleTownship =
    Ok (mkWeatherData (VStr "臺東市") (VStr "2024-05-01T11:00:00+08:00")
          [mkForecast (VStr "06:00") (VStr "09:00") (VStr "晴天")
                      "0%" "25°C" "25°C" (VStr "") (VStr "")]) /\
  snapshot 17 (snd run1) (HRef 15) = snapshot 17 (snd run2) (HRef 18) /\
  snapshot 17 (snd run1) (HRef 15) =
    Some (weatherDataValue
            (mkWeatherData (VStr "臺東市")
               (VStr "2024-05-01T11:00:00+08:00")
               [mkForecast (VStr "06:00") (VStr "09:00") (VStr "晴天")
                           "0%" "25°C" "25°C" (VStr "") (VStr "")])).
Proof. vm_compute. repeat split. Qed.

End Purity.

(* ================================================================== *)
(** ** The handler as a whole *)
(* ================================================================== *)

Module Behaviour.
Import JS Server Contribution Confinement Fixtures Properties.

(** *** Exceptions of the [try] block *)

Lemma contained_Ok {A} (a : A) : contained (Ok a).
Proof. exact I. Qed.

Lemma contained_TypeError {A} : contained (@Throw A TypeError).
Proof. exact I. Qed.

Lemma contained_bind {A B} (m : result A) (k : A -> result B) :
  contained m -> (forall a, contained (k a)) -> contained (bind m k).
Proof. intros Hm Hk. destruct m as [a | e |]; cbn; auto. Qed.

Lemma contained_if {A} (b : bool) (m1 m2 : result A) :
  contained m1 -> contained m2 -> contained (if b then m1 else m2).
Proof. now destruct b. Qed.

Lemma get_contained (k : jsstring) (v : value) : contained (get k v).
Proof. destruct v; exact I. Qed.

Lemma index_contained (i : nat) (v : value) : contained (index i v).
Proof. destruct v; exact I. Qed.

Lemma sequence_contained {A} (ms : list (result A)) :
  Forall contained ms -> contained (sequence ms).
Proof.
  induction 1 as [| m ms Hm _ IH]; cbn [sequence].
  - exact I.
  - apply contained_bind; [exact Hm |]. intros x.
    apply contained_bind; [exact IH |]. intros xs. exact I.
Qed.

Lemma to_string_contained (v : value) : contained (to_string v).
Proof.
  induction v as [| | b | n | s | l IH | p IH] using value_ind_nested;
    cbn [to_string]; try exact I.
  - now destruct b.
  - apply contained_bind; [| intros; exact I].
    apply sequence_contained. rewrite Forall_map.
    eapply Forall_impl; [| exact IH]. intros e He. cbn beta.
    apply contained_if; [exact I | exact He].
  - apply contained_if; exact I.
Qed.

Lemma add_str_contained (v : value) (lit : jsstring) :
  contained (add_str v lit).
Proof.
  unfold add_str. apply contained_bind; [apply to_string_contained |].
  intros s. exact I.
Qed.

Lemma find_in_contained (p : value -> result bool) (l : list value) :
  (forall x, contained (p x)) -> contained (find_in p l).
Proof.
  intros Hp. induction l as [| x l IH]; cbn [find_in].
  - exact I.
  - apply contained_bind; [apply Hp |]. intros b.
    apply contained_if; [exact I | exact IH].
Qed.

Lemma find_contained (p : value -> result bool) (v : value) :
  (forall x, contained (p x)) -> contained (find p v).
Proof.
  intros Hp. destruct v; cbn [find]; try exact I.
  now apply find_in_contained.
Qed.

Lemma forEach_contained {S} (f : value -> S -> result S) (v : value) (s : S) :
  (forall x s', contained (f x s')) -> contained (forEach f v s).
Proof.
  intros Hf. destruct v; cbn [forEach]; try exact I.
  revert s. induction elems as [| x l IH]; intros s; cbn [forEach_in].
  - exact I.
  - apply contained_bind; [apply Hf | exact IH].
Qed.

(** Decomposition of a goal [contained m] along the code of [m]. *)
Ltac contained :=
  repeat first
    [ exact I
    | apply get_contained | apply index_contained | apply add_str_contained
    | (apply contained_bind; [| intros ?])
    | (apply contained_if)
    | (apply find_contained; intros ?)
    | match goal with
      | |- contained (match ?x with Some _ => _ | None => _ end) =>
          destruct x
      end ].

Lemma named_contained (name : jsstring) (e : value) :
  contained (named name e).
Proof. unfold named. contained. Qed.

Lemma processElement_contained (i : nat) (e : value) (fc : forecast) :
  contained (processElement i e fc).
Proof. unfold processElement, entryValue, dispatch. contained. Qed.

Lemma rainFallback_contained (ws : value) (i : nat) (fc : forecast) :
  contained (rainFallback ws i fc).
Proof. unfold rainFallback. contained; try apply named_contained. Qed.

Lemma forecastAt_contained (ws wx : value) (i : nat) :
  contained (forecastAt ws wx i).
Proof.
  unfold forecastAt. apply contained_bind.
  - unfold initialForecast. contained.
  - intros fc. apply contained_bind.
    + apply forEach_contained. intros. apply processElement_contained.
    + intros fc'. apply rainFallback_contained.
Qed.

Lemma for_loop_contained (body : nat -> result forecast) (n : nat) :
  (forall i, contained (body i)) ->
  forall i pushed, contained (for_loop body n i pushed).
Proof.
  intros Hb. induction n as [| n IH]; intros i pushed; cbn [for_loop].
  - exact I.
  - apply contained_bind; [apply Hb | intros; apply IH].
Qed.

Lemma selectTownship_contained (location : value) :
  contained (selectTownship location).
Proof. unfold selectTownship, isTaitungCity. contained. Qed.







(** *** Every request is answered *)



(** X2.  When the upstream service answers with an error status and a payload,
    the handler has issued its one request and answers with the same
    status, the payload as [details], and as [message] the payload's own
    [message] when it has a truthy one. *)
Theorem upstream_error_is_passed_through :
  forall (key : jsstring) (upstream : jsstring -> axios_result)
         (code : Z) (data : value),
    key <> [] ->
    upstream (CWA_API_BASE_URL ++ utf16 "/v1/rest/datastore/F-D0047-091")
      = Rejected (Some (code, data)) ->
    nullish data = false ->
    exists m,
      get "message" data = Ok m /\
      serve (Some key) upstream =
        ([CWA_API_BASE_URL ++ utf16 "/v1/rest/datastore/F-D0047-091"],
         Responded
           (mkResponse code
              (ErrorBody "CWA API 錯誤"
                 (if truthy m then m else VStr "無法取得天氣資料")
                 (Some data)))).
Proof.
  intros key upstream code data Hkey Hup Hdata.
  destruct (get_total "message" data Hdata) as [m Hm].
  exists m. split; [exact Hm |].
  unfold serve, getTaitungWeather.
  destruct key as [| c key]; [congruence |].
  cbn [env_value truthy negb exec]. rewrite Hup.
  cbn [exec after_request catch_block]. now rewrite Hm.
Qed.

Lemma upstream_error_is_passed_through_witness :
  exists m,
    get "message" (obj [("message", VStr "Unauthorized")]) = Ok m /\
    serve (Some (utf16 "CWA-KEY"))
          (fun _ => Rejected
                      (Some (401%Z, obj [("message", VStr "Unauthorized")])))
    = ([CWA_API_BASE_URL ++ utf16 "/v1/rest/datastore/F-D0047-091"],
       Responded
         (mkResponse 401
            (ErrorBody "CWA API 錯誤"
               (if truthy m then m else VStr "無法取得天氣資料")
               (Some (obj [("message", VStr "Unauthorized")]))))).
Proof.
  apply (upstream_error_is_passed_through
           (utf16 "CWA-KEY")
           (fun _ => Rejected
                       (Some (401%Z, obj [("message", VStr "Unauthorized")])))
           401 (obj [("message", VStr "Unauthorized")])).
  - vm_compute. discriminate.
  - reflexivity.
  - reflexivity.
Defined.

(** X3.  When the upstream service answers with an error status and a
    [null] (or missing) payload, the read of
    [error.response.data.message] throws inside [catch]: after its one
    request the handler itself sends no response, and its promise
    rejects with a [TypeError]. *)
Theorem upstream_error_without_payload_rejects :
  forall (key : jsstring) (upstream : jsstring -> axios_result)
         (code : Z) (data : value),
    key <> [] ->
    upstream (CWA_API_BASE_URL ++ utf16 "/v1/rest/datastore/F-D0047-091")
      = Rejected (Some (code, data)) ->
    nullish data = true ->
    serve (Some key) upstream =
      ([CWA_API_BASE_URL ++ utf16 "/v1/rest/datastore/F-D0047-091"],
       Uncaught TypeError).
Proof.
  intros key upstream code data Hkey Hup Hdata.
  unfold serve, getTaitungWeather.
  destruct key as [| c key]; [congruence |].
  cbn [env_value truthy negb exec]. rewrite Hup.
  destruct data; try discriminate; reflexivity.
Qed.

Lemma upstream_error_without_payload_rejects_witness :
  serve (Some (utf16 "CWA-KEY")) (fun _ => Rejected (Some (502%Z, VNull))) =
    ([CWA_API_BASE_URL ++ utf16 "/v1/rest/datastore/F-D0047-091"],
     Uncaught TypeError).
Proof.
  apply (upstream_error_without_payload_rejects
           (utf16 "CWA-KEY") (fun _ => Rejected (Some (502%Z, VNull)))
           502 VNull).
  - vm_compute. discriminate.
  - reflexivity.
  - reflexivity.
Defined.

Lemma typed_township_object (t : value) :
  typed_township t -> is_object t = true.
Proof.
  intros (ws & Hws & _).
  now destruct (get_truthy_object _ _ _ Hws eq_refl eq_refl) as [props ->].
Qed.

Lemma selectTownship_objects (ts : list value) :
  ts <> [] ->
  Forall (fun loc => is_object loc = true) ts ->
  exists t, selectTownship (VArr ts) = Ok t /\ In t ts.
Proof.
  intros Hne Hobj. unfold selectTownship. cbn [find].
  destruct (find_first_exact ts Hobj)
    as [(pre & t & post & -> & _ & _ & ->) | (_ & ->)]; cbn [bind].
  - rewrite Forall_forall in Hobj.
    rewrite (object_truthy t) by (apply Hobj, in_elt).
    exists t. split; [reflexivity | apply in_elt].
  - destruct ts as [| t ts]; [congruence |]. cbn.
    exists t. split; [reflexivity | now left].
Qed.

(** X4.  A document of the documented shape is always served: when the first
    location group has a non-empty township list in which every township
    has typed weather elements with a Wx element among them, the handler
    answers with HTTP 200 after its one request, and the [city] of the
    answer is the name of one of the townships. *)
Theorem documented_shape_is_served :
  forall (key : jsstring) (upstream : jsstring -> axios_result)
         (data records locations group : value) (ts : list value),
    key <> [] ->
    upstream (CWA_API_BASE_URL ++ utf16 "/v1/rest/datastore/F-D0047-091")
      = Resolved data ->
    get "records" data = Ok records ->
    get "locations" records = Ok locations ->
    index 0 locations = Ok group ->
    get "location" group = Ok (VArr ts) ->
    ts <> [] ->
    Forall typed_township ts ->
    exists wd t,
      serve (Some key) upstream =
        ([CWA_API_BASE_URL ++ utf16 "/v1/rest/datastore/F-D0047-091"],
         Responded (mkResponse 200 (SuccessBody wd))) /\
      In t ts /\ get "locationName" t = Ok (city wd).
Proof.
  intros key upstream data records locations group ts
         Hkey Hup Hr Hl Hg Hloc Hne Hall.
  assert (Hobj : Forall (fun loc => is_object loc = true) ts).
  { eapply Forall_impl; [| exact Hall]. apply typed_township_object. }
  destruct (selectTownship_objects ts Hne Hobj) as (t & Hsel & Hin).
  rewrite Forall_forall in Hall, Hobj.
  pose proof (locate_with_townships _ _ _ _ _ _ Hr Hl Hg Hloc Hsel
                (object_truthy _ (Hobj t Hin))) as Hlocate.
  destruct (Hall t Hin) as (ws & Hws & Htyped & Hwx).
  assert (Hex : Exists (fun el => named "Wx" el = Ok true) ws).
  { eapply Exists_impl; [| exact Hwx]. cbn beta. intros el Hel.
    unfold named. rewrite Hel; cbn [bind].
    now rewrite (proj2 (strict_eq_str_true _ _) eq_refl). }
  destruct (typed_township_normalizes records t ws
              (get_Ok_not_nullish _ _ _ Hl) Hws Htyped Hex)
    as (wd & _ & _ & Hnorm & _).
  exists wd, t. split; [| split; [exact Hin | now apply normalize_city with records]].
  unfold serve, getTaitungWeather.
  destruct key as [| c key]; [congruence |].
  cbn [env_value truthy negb exec]. rewrite Hup.
  cbn [exec after_request].
  now rewrite (try_block_located _ _ _ Hlocate), Hnorm.
Qed.

Lemma documented_shape_is_served_witness :
  exists wd t,
    serve (Some (utf16 "CWA-KEY")) (fun _ => Resolved (document twoTownships))
    = ([CWA_API_BASE_URL ++ utf16 "/v1/rest/datastore/F-D0047-091"],
       Responded (mkResponse 200 (SuccessBody wd))) /\
    In t twoTownships /\ get "locationName" t = Ok (city wd).
Proof.
  refine (documented_shape_is_served
            (utf16 "CWA-KEY") (fun _ => Resolved (document twoTownships))
            (document twoTownships) _ _ _ twoTownships
            _ eq_refl eq_refl eq_refl eq_refl eq_refl _ _).
  - vm_compute. discriminate.
  - discriminate.
  - repeat constructor;
      (eexists; split; [reflexivity |]; split;
       [| left; reflexivity]);
      repeat constructor;
      (eexists; eexists; split; [reflexivity |]; split; [reflexivity |]);
      repeat constructor;
      (eexists; eexists; split; [reflexivity |]; split; reflexivity).
Defined.

(** *** The forecast list *)

Lemma initialForecast_periods (wx : value) (i : nat) (fc : forecast) :
  initialForecast wx i = Ok fc ->
  exists time entry,
    get "time" wx = Ok time /\ index i time = Ok entry /\
    get "startTime" entry = Ok (startTime fc) /\
    get "endTime" entry = Ok (endTime fc).
Proof.
  unfold initialForecast. intros H.
  bind_inv H. bind_inv H. bind_inv H. bind_inv H.
  injection H as <-. cbn. eauto 8.
Qed.

(** X5.  The forecast list follows the time axis of the first Wx element: it
    has one forecast per Wx time entry, in the same order, and each
    forecast carries the [startTime] and [endTime] of its entry. *)
Theorem forecasts_follow_Wx_axis :
  forall records t ws wd,
    get "weatherElement" t = Ok (VArr ws) ->
    normalize records t = Ok wd ->
    exists wx,
      find_in (named "Wx") ws = Ok wx /\
      forall times,
        get "time" wx = Ok (VArr times) ->
        List.length (forecasts wd) = List.length times /\
        forall i entry fc,
          nth_error times i = Some entry ->
          nth_error (forecasts wd) i = Some fc ->
          get "startTime" entry = Ok (startTime fc) /\
          get "endTime" entry = Ok (endTime fc).
Proof.
  intros records t ws wd Hws Hnorm.
  destruct (normalize_Ok _ _ _ Hnorm)
    as (ws' & wx & time & Hws' & Hfind & _ & Htime & Hlen & Hat).
  rewrite Hws in Hws'. injection Hws' as <-.
  exists wx. split; [exact Hfind |].
  intros times Ht. rewrite Ht in Htime. injection Htime as <-.
  split; [now apply Hlen |].
  intros i entry fc Hi Hfc.
  destruct (forecastAt_Ok _ _ _ _ (Hat _ _ Hfc))
    as (fc0 & fc1 & Hinit & Heach & Hfall).
  destruct (initialForecast_periods _ _ _ Hinit)
    as (time & entry' & Ht' & Hidx & Hs & He).
  rewrite Ht in Ht'. injection Ht' as <-. cbn in Hidx. rewrite Hi in Hidx.
  injection Hidx as <-.
  destruct (forEach_spec _ _ _ _ Heach) as (S1 & S2 & _).
  destruct (rainFallback_fields _ _ _ _ Hfall) as (R1 & R2 & _).
  split; congruence.
Qed.

Lemma forecasts_follow_Wx_axis_witness :
  exists wx,
    find_in (named "Wx") sparseElements = Ok wx /\
    forall times,
      get "time" wx = Ok (VArr times) ->
      List.length
        (forecasts
           (mkWeatherData (VStr "臺東市") (VStr "未知發布時間")
              [mkForecast (VStr "06:00") (VStr "09:00") (VStr "")
                          "0%" "25°C" "25°C" (VStr "") (VStr "");
               mkForecast (VStr "09:00") (VStr "12:00") (VStr "")
                          "0%" "" "" (VStr "") (VStr "")]))
      = List.length times /\
      forall i entry fc,
        nth_error times i = Some entry ->
        nth_error
          (forecasts
             (mkWeatherData (VStr "臺東市") (VStr "未知發布時間")
                [mkForecast (VStr "06:00") (VStr "09:00") (VStr "")
                            "0%" "25°C" "25°C" (VStr "") (VStr "");
                 mkForecast (VStr "09:00") (VStr "12:00") (VStr "")
                            "0%" "" "" (VStr "") (VStr "")])) i = Some fc ->
        get "startTime" entry = Ok (startTime fc) /\
        get "endTime" entry = Ok (endTime fc).
Proof.
  apply (forecasts_follow_Wx_axis (obj [])
           (township "臺東市" sparseElements) sparseElements).
  - reflexivity.
  - vm_compute. reflexivity.
Defined.

(** X6.  The values of Wx, CI and Ws reach [weather], [comfort] and
    [windSpeed] unchanged, whatever JSON value they are; of several
    elements with one name the last that has a value at the index wins. *)
Theorem plain_fields_are_copied :
  forall records t ws wd i fc,
    get "weatherElement" t = Ok (VArr ws) ->
    normalize records t = Ok wd ->
    nth_error (forecasts wd) i = Some fc ->
    weather fc =
      match last_yield "Wx" i ws with Some v => v | None => VStr "" end /\
    comfort fc =
      match last_yield "CI" i ws with Some v => v | None => VStr "" end /\
    windSpeed fc =
      match last_yield "Ws" i ws with Some v => v | None => VStr "" end.
Proof.
  intros records t ws wd i fc Hws Hnorm Hnth.
  destruct (normalize_Ok _ _ _ Hnorm)
    as (ws' & wx & time & Hws' & _ & _ & _ & _ & Hat).
  rewrite Hws in Hws'. injection Hws' as <-.
  destruct (forecastAt_Ok _ _ _ _ (Hat _ _ Hnth))
    as (fc0 & fc1 & Hinit & Heach & Hfall).
  destruct (initialForecast_fields _ _ _ Hinit) as (I1 & _ & _ & _ & I5 & I6).
  destruct (forEach_spec _ _ _ _ Heach) as (_ & _ & F3 & F4 & F5 & _).
  destruct (rainFallback_fields _ _ _ _ Hfall)
    as (_ & _ & R3 & _ & _ & R6 & R7 & _).
  rewrite R3, R6, R7, F3, F4, F5, I1, I5, I6. repeat split.
Qed.

Lemma plain_fields_are_copied_witness :
  let fc := mkForecast (VStr "06:00") (VStr "09:00") (VStr "晴天")
                       "0%" "25°C" "25°C" (VStr "") (VStr "") in
  let ws := [element "Wx" [entry "06:00" "09:00" (VStr "晴天")];
             element "T" [entry "06:00" "09:00" (VStr "25")]] in
  weather fc =
    match last_yield "Wx" 0 ws with Some v => v | None => VStr "" end /\
  comfort fc =
    match last_yield "CI" 0 ws with Some v => v | None => VStr "" end /\
  windSpeed fc =
    match last_yield "Ws" 0 ws with Some v => v | None => VStr "" end.
Proof.
  refine (plain_fields_are_copied (obj []) sampleTownship _
            (mkWeatherData (VStr "臺東市") (VStr "未知發布時間")
               [mkForecast (VStr "06:00") (VStr "09:00") (VStr "晴天")
                           "0%" "25°C" "25°C" (VStr "") (VStr "")])
            0 _ eq_refl _ _).
  - vm_compute. reflexivity.
  - reflexivity.
Defined.

Lemma rainFallback_suffix (ws : value) (i : nat) (fc fc' : forecast) :
  rainFallback ws i fc = Ok fc' ->
  (rain fc <> [] /\ rain fc' = rain fc) \/
  exists s, rain fc' = s ++ utf16 "%".
Proof.
  unfold rainFallback. intros H. cbn [truthy] in H.
  destruct (rain fc) as [| c r] eqn:Hr; cbn [negb] in H.
  - right. bind_inv H. bind_inv H. destruct (truthy a0).
    + bind_inv H. bind_inv H. bind_inv H. bind_inv H.
      unfold add_str in H.
      destruct (to_string a4) as [s | |]; cbn [bind] in H;
        try discriminate H.
      injection H as <-. cbn. eauto.
    + injection H as <-. cbn. exists (utf16 "0"). reflexivity.
  - left. injection H as <-. split; congruence.
Qed.

(** X7.  Every forecast of a completed normalisation has [minTemp] equal to
    [maxTemp], both empty or ending in ["°C"], and a [rain] that ends in
    ["%"]. *)
Theorem forecast_fields_are_formatted :
  forall records t wd fc,
    normalize records t = Ok wd ->
    In fc (forecasts wd) ->
    minTemp fc = maxTemp fc /\
    (minTemp fc = utf16 "" \/ exists s, minTemp fc = s ++ utf16 "°C") /\
    exists s, rain fc = s ++ utf16 "%".
Proof.
  intros records t wd fc Hnorm Hin.
  destruct (In_nth_error _ _ Hin) as [i Hnth].
  destruct (normalize_Ok _ _ _ Hnorm)
    as (ws & wx & time & _ & _ & _ & _ & _ & Hat).
  destruct (forecastAt_Ok _ _ _ _ (Hat _ _ Hnth))
    as (fc0 & fc1 & Hinit & Heach & Hfall).
  destruct (initialForecast_fields _ _ _ Hinit) as (_ & I2 & I3 & I4 & _).
  destruct (forEach_spec _ _ _ _ Heach) as (_ & _ & _ & _ & _ & F6 & F7).
  destruct (rainFallback_fields _ _ _ _ Hfall)
    as (_ & _ & _ & R4 & R5 & _).
  rewrite R4, R5.
  split; [| split].
  - destruct (last_yield "T" i ws).
    + destruct F7 as (s & _ & Hlo & Hhi). congruence.
    + destruct F7. congruence.
  - destruct (last_yield "T" i ws).
    + destruct F7 as (s & _ & Hlo & _). right. eauto.
    + destruct F7 as [Hlo _]. left. rewrite Hlo. exact I3.
  - destruct (rainFallback_suffix _ _ _ _ Hfall) as [[Hne Hkeep] | Hs];
      [| exact Hs].
    rewrite Hkeep. destruct (last_yield "PoP6h" i ws).
    + destruct F6 as (s & _ & Hr). eauto.
    + congruence.
Qed.

Lemma forecast_fields_are_formatted_witness :
  let fc := mkForecast (VStr "06:00") (VStr "09:00") (VStr "晴天")
                       "0%" "25°C" "25°C" (VStr "") (VStr "") in
  minTemp fc = maxTemp fc /\
  (minTemp fc = utf16 "" \/ exists s, minTemp fc = s ++ utf16 "°C") /\
  exists s, rain fc = s ++ utf16 "%".
Proof.
  refine (forecast_fields_are_formatted (obj []) sampleTownship
            (mkWeatherData (VStr "臺東市") (VStr "未知發布時間")
               [mkForecast (VStr "06:00") (VStr "09:00") (VStr "晴天")
                           "0%" "25°C" "25°C" (VStr "") (VStr "")])
            _ _ _).
  - vm_compute. reflexivity.
  - left. reflexivity.
Defined.

(** With an empty Wx time list the loop body never runs. *)
Lemma empty_axis_normalizes (records t : value) (ws : list value)
      (wx : value) :
  nullish records = false ->
  get "weatherElement" t = Ok (VArr ws) ->
  find_in (named "Wx") ws = Ok wx ->
  get "time" wx = Ok (VArr []) ->
  exists name issue,
    normalize records t =
      Ok (mkWeatherData name
            (if truthy issue then issue else VStr "未知發布時間") []).
Proof.
  intros Hrec Hws Hfind Htime.
  destruct (get_total "locationName" t (get_Ok_not_nullish _ _ _ Hws))
    as [name Hname].
  destruct (get_total "issueTime" records Hrec) as [issue Hissue].
  exists name, issue.
  destruct (get_object _ _ _ Htime eq_refl eq_refl) as [props ->].
  unfold normalize. rewrite Hname, Hissue, Hws; cbn [bind find].
  rewrite Hfind; cbn [bind truthy negb]. rewrite Htime. reflexivity.
Qed.

(** X11.  When the time list of the first Wx element is empty, the
    request still succeeds: the answer is HTTP 200 with an empty
    forecast list, and no other element is looked at. *)
Theorem empty_axis_gives_empty_success :
  forall data records t ws wx,
    locate data = Ok (Township records t) ->
    get "weatherElement" t = Ok (VArr ws) ->
    find_in (named "Wx") ws = Ok wx ->
    get "time" wx = Ok (VArr []) ->
    exists wd,
      after_request (Resolved data) =
        Responded (mkResponse 200 (SuccessBody wd)) /\
      forecasts wd = [].
Proof.
  intros data records t ws wx Hloc Hws Hfind Htime.
  destruct (locate_Township _ _ _ Hloc)
    as (locations & group & location & _ & Hl & _).
  destruct (empty_axis_normalizes records t ws wx
              (get_Ok_not_nullish _ _ _ Hl) Hws Hfind Htime)
    as (name & issue & Hnorm).
  exists (mkWeatherData name
            (if truthy issue then issue else VStr "未知發布時間") []).
  split; [| reflexivity].
  unfold after_request.
  now rewrite (try_block_located _ _ _ Hloc), Hnorm.
Qed.

Lemma empty_axis_gives_empty_success_witness :
  exists wd,
    after_request
      (Resolved (document [township "臺東市" [element "Wx" []; VNull]])) =
      Responded (mkResponse 200 (SuccessBody wd)) /\
    forecasts wd = [].
Proof.
  apply (empty_axis_gives_empty_success
           (document [township "臺東市" [element "Wx" []; VNull]])
           (obj [("issueTime", VStr "2024-05-01T11:00:00+08:00");
                 ("locations",
                  VArr [obj [("locationsName", VStr "臺東縣");
                             ("location",
                              VArr [township "臺東市"
                                      [element "Wx" []; VNull]])]])])
           (township "臺東市" [element "Wx" []; VNull])
           [element "Wx" []; VNull] (element "Wx" []));
    vm_compute; reflexivity.
Defined.

(** X10.  The [updateTime] of a normalised result is never empty: it is the
    [issueTime] of [records] when that is truthy, and the placeholder
    text otherwise (also for an empty, [null] or missing [issueTime]). *)
Theorem update_time_is_never_empty :
  forall records t wd,
    normalize records t = Ok wd ->
    truthy (updateTime wd) = true /\
    exists issue,
      get "issueTime" records = Ok issue /\
      updateTime wd = (if truthy issue then issue else VStr "未知發布時間").
Proof.
  intros records t wd H. unfold normalize in H.
  bind_inv H. bind_inv H. bind_inv H. bind_inv H. bind_inv H.
  bind_inv H. bind_inv H. bind_inv H. bind_inv H.
  injection H as <-. cbn [updateTime]. split; [| eauto].
  destruct (truthy a0) eqn:T; [exact T | reflexivity].
Qed.

Lemma update_time_is_never_empty_witness :
  truthy (updateTime
            (mkWeatherData (VStr "臺東市") (VStr "未知發布時間")
               [mkForecast (VStr "06:00") (VStr "09:00") (VStr "晴天")
                           "0%" "25°C" "25°C" (VStr "") (VStr "")])) = true /\
  exists issue,
    get "issueTime" (obj [("issueTime", VStr "")]) = Ok issue /\
    updateTime
      (mkWeatherData (VStr "臺東市") (VStr "未知發布時間")
         [mkForecast (VStr "06:00") (VStr "09:00") (VStr "晴天")
                     "0%" "25°C" "25°C" (VStr "") (VStr "")])
    = (if truthy issue then issue else VStr "未知發布時間").
Proof.
  apply (update_time_is_never_empty
           (obj [("issueTime", VStr "")]) sampleTownship).
  vm_compute. reflexivity.
Defined.

Lemma rain_defaults_to_zero_witness :
  rain (mkForecast (VStr "06:00") (VStr "09:00") (VStr "晴天")
                   "0%" "25°C" "25°C" (VStr "") (VStr "")) = utf16 "0%".
Proof.
  refine (rain_defaults_to_zero (obj []) sampleTownship _
            (mkWeatherData (VStr "臺東市") (VStr "未知發布時間")
               [mkForecast (VStr "06:00") (VStr "09:00") (VStr "晴天")
                           "0%" "25°C" "25°C" (VStr "") (VStr "")])
            0 _ VUndefined eq_refl _ eq_refl _ _ _).
  - vm_compute. reflexivity.
  - vm_compute. reflexivity.
  - vm_compute. reflexivity.
  - left. reflexivity.
Defined.

(** *** Elements and entries the handler does not expect *)

Lemma find_in_skip (p : value -> result bool) (ws1 ws2 : list value)
      (x : value) :
  p x = Ok false ->
  find_in p (ws1 ++ x :: ws2) = find_in p (ws1 ++ ws2).
Proof.
  intros Hx. induction ws1 as [| w ws1 IH]; cbn [app find_in].
  - now rewrite Hx.
  - destruct (p w) as [[|] | |]; cbn [bind]; auto.
Qed.

Lemma forEach_in_skip {S} (f : value -> S -> result S)
      (ws1 ws2 : list value) (x : value) :
  (forall s, f x s = Ok s) ->
  forall s, forEach_in f (ws1 ++ x :: ws2) s = forEach_in f (ws1 ++ ws2) s.
Proof.
  intros Hx. induction ws1 as [| w ws1 IH]; intros s; cbn [app forEach_in].
  - now rewrite Hx.
  - destruct (f w s) as [s' | |]; cbn [bind]; auto.
Qed.

Lemma for_loop_ext (f g : nat -> result forecast) (n : nat) :
  (forall i, f i = g i) ->
  forall i pushed, for_loop f n i pushed = for_loop g n i pushed.
Proof.
  intros H. induction n as [| n IH]; intros i pushed; cbn [for_loop].
  - reflexivity.
  - rewrite H. destruct (g i); cbn [bind]; auto.
Qed.

Lemma index_total (i : nat) (v : value) :
  nullish v = false -> exists w, index i v = Ok w.
Proof. destruct v; simpl; try discriminate; eauto. Qed.

(** The [forEach] callback leaves the local object as it is on an
    element of another name. *)
Lemma other_name_skipped (x n tm : value) :
  get "elementName" x = Ok n -> other_name n ->
  get "time" x = Ok tm -> nullish tm = false ->
  forall i fc, processElement i x fc = Ok fc.
Proof.
  intros Hn (N1 & N2 & N3 & N4 & N5 & _) Ht Htm i fc.
  unfold processElement, entryValue. rewrite Ht; cbn [bind].
  destruct (index_total i tm Htm) as [e ->]; cbn [bind].
  destruct (truthy e) eqn:Te; cbn [negb]; [| reflexivity].
  destruct (get_total "parameter" e (truthy_not_nullish _ Te)) as [p ->];
    cbn [bind].
  destruct (truthy p) eqn:Tp; cbn [negb]; [| reflexivity].
  destruct (get_total "parameterName" p (truthy_not_nullish _ Tp))
    as [v ->]; cbn [bind].
  unfold dispatch. rewrite Hn; cbn [bind].
  now rewrite N1, N2, N3, N4, N5.
Qed.

(** X8.  An element whose name is none of Wx, PoP6h, T, CI, Ws and PoP12h
    has no influence on the result: with or without it in the element
    list, at whatever position, the normalisation gives the same result
    (or fails in the same way). *)
Theorem unreported_element_is_ignored :
  forall records t t' ws1 x ws2 n tm,
    get "locationName" t' = get "locationName" t ->
    get "weatherElement" t = Ok (VArr (ws1 ++ x :: ws2)) ->
    get "weatherElement" t' = Ok (VArr (ws1 ++ ws2)) ->
    get "elementName" x = Ok n -> other_name n ->
    get "time" x = Ok tm -> nullish tm = false ->
    normalize records t = normalize records t'.
Proof.
  intros records t t' ws1 x ws2 n tm Hname Hws Hws' Hn Hother Ht Htm.
  assert (Hskip : forall nm, strict_eq_str n nm = false ->
                             named nm x = Ok false).
  { intros nm H. unfold named. rewrite Hn; cbn [bind]. now rewrite H. }
  pose proof Hother as (N1 & _ & _ & _ & _ & N6).
  assert (Hat : forall wx i,
             forecastAt (VArr (ws1 ++ x :: ws2)) wx i =
             forecastAt (VArr (ws1 ++ ws2)) wx i).
  { intros wx i. unfold forecastAt.
    destruct (initialForecast wx i) as [fc0 | |]; cbn [bind forEach]; auto.
    rewrite (forEach_in_skip (processElement i) ws1 ws2 x
               (fun s => other_name_skipped x n tm Hn Hother Ht Htm i s)).
    destruct (forEach_in (processElement i) (ws1 ++ ws2) fc0)
      as [fc1 | |]; cbn [bind]; auto.
    unfold rainFallback. cbn [find].
    now rewrite (find_in_skip (named "PoP12h") ws1 ws2 x (Hskip _ N6)). }
  unfold normalize. rewrite Hname, Hws, Hws'.
  destruct (get "locationName" t) as [name | |]; cbn [bind]; auto.
  destruct (get "issueTime" records) as [issue | |]; cbn [bind find]; auto.
  rewrite (find_in_skip (named "Wx") ws1 ws2 x (Hskip _ N1)).
  destruct (find_in (named "Wx") (ws1 ++ ws2)) as [wx | |]; cbn [bind]; auto.
  destruct (negb (truthy wx)); auto.
  destruct (get "time" wx) as [time | |]; cbn [bind]; auto.
  destruct (get "length" time) as [len | |]; cbn [bind]; auto.
  destruct (loop_trips len) as [trips | |]; cbn [bind]; auto.
  now rewrite (for_loop_ext _ _ trips (Hat wx)).
Qed.

Lemma unreported_element_is_ignored_witness :
  normalize (obj []) humidityTownship = normalize (obj []) sampleTownship.
Proof.
  apply (unreported_element_is_ignored (obj [])
           humidityTownship sampleTownship
           [element "Wx" [entry "06:00" "09:00" (VStr "晴天")]]
           (element "RH" [entry "06:00" "09:00" (VStr "80")])
           [element "T" [entry "06:00" "09:00" (VStr "25")]]
           (VStr "RH") (VArr [entry "06:00" "09:00" (VStr "80")])).
  - reflexivity.
  - reflexivity.
  - reflexivity.
  - reflexivity.
  - vm_compute. repeat split.
  - reflexivity.
  - reflexivity.
Defined.

Lemma find_in_null_entry (pre post : list value) (x : value) :
  Forall (fun loc => exists n, get "locationName" loc = Ok n /\
                               strict_eq_str n "臺東市" = false) pre ->
  nullish x = true ->
  find_in isTaitungCity (pre ++ x :: post) = Throw TypeError.
Proof.
  intros Hpre Hx. induction Hpre as [| loc pre (n & Hn & Hne) _ IH];
    cbn [app find_in].
  - destruct x; try discriminate; reflexivity.
  - unfold isTaitungCity at 1. rewrite Hn; cbn [bind]. now rewrite Hne.
Qed.

(** X13.  A [null] entry in the township list, before any township named
    ["臺東市"], makes the callback of [find] throw: the request is
    answered with the generic HTTP 500, even when the target city
    follows in the list. *)
Theorem null_township_before_match_is_500 :
  forall data records locations group pre x post,
    get "records" data = Ok records ->
    get "locations" records = Ok locations ->
    index 0 locations = Ok group ->
    get "location" group = Ok (VArr (pre ++ x :: post)) ->
    Forall (fun loc => exists n, get "locationName" loc = Ok n /\
                                 strict_eq_str n "臺東市" = false) pre ->
    nullish x = true ->
    after_request (Resolved data) = Responded serverError.
Proof.
  intros data records locations group pre x post Hr Hl Hg Hloc Hpre Hx.
  apply thrown_in_try_is_500 with (e := TypeError); [| discriminate].
  unfold try_block, locate.
  rewrite Hr; cbn [bind]. rewrite Hl; cbn [bind]. rewrite Hg; cbn [bind].
  destruct (get_truthy_object _ _ _ Hloc eq_refl eq_refl) as [props ->].
  cbn [truthy negb]. rewrite Hloc; cbn [bind truthy negb].
  unfold selectTownship. cbn [find].
  now rewrite (find_in_null_entry pre post x Hpre Hx).
Qed.

Lemma null_township_before_match_is_500_witness :
  after_request (Resolved nullTownshipDocument) = Responded serverError.
Proof.
  refine (null_township_before_match_is_500 nullTownshipDocument _ _ _
            [township "成功鎮"
               [element "Wx" [entry "06:00" "09:00" (VStr "陰天")]]]
            VNull
            [township "臺東市"
               [element "Wx" [entry "06:00" "09:00" (VStr "晴天")]]]
            eq_refl eq_refl eq_refl eq_refl _ eq_refl).
  constructor; [| constructor].
  exists (VStr "成功鎮"). split; [reflexivity | vm_compute; reflexivity].
Defined.

Lemma normalize_contained (records t : value) (ws : list value)
      (wx : value) (times : list value) :
  get "weatherElement" t = Ok (VArr ws) ->
  find_in (named "Wx") ws = Ok wx ->
  get "time" wx = Ok (VArr times) ->
  contained (normalize records t).
Proof.
  intros Hws Hfind Ht. unfold normalize.
  apply contained_bind; [apply get_contained | intros name].
  apply contained_bind; [apply get_contained | intros issue].
  rewrite Hws; cbn [bind find]. rewrite Hfind; cbn [bind].
  apply contained_if; [exact I |].
  rewrite Ht; cbn [bind get].
  change (str_eqb (utf16 "length") (utf16 "length")) with true.
  cbn [bind loop_trips].
  apply contained_bind; [| intros; exact I].
  apply for_loop_contained. intros. apply forecastAt_contained.
Qed.

(** X12.  A Wx element without a time list, or with a [null] entry in it,
    fails the whole request: the answer is the generic HTTP 500, never
    a success response with the periods that could be read. *)
Theorem broken_Wx_axis_is_500 :
  forall data records t ws wx tm,
    locate data = Ok (Township records t) ->
    get "weatherElement" t = Ok (VArr ws) ->
    find_in (named "Wx") ws = Ok wx ->
    get "time" wx = Ok tm ->
    (nullish tm = true \/
     exists times, tm = VArr times /\
                   Exists (fun e => nullish e = true) times) ->
    after_request (Resolved data) = Responded serverError.
Proof.
  intros data records t ws wx tm Hloc Hws Hfind Ht Hbad.
  assert (Hthrow : exists e, normalize records t = Throw e /\ local_exn e).
  { destruct Hbad as [Hnull | (times & -> & Hex)].
    - destruct (locate_Township _ _ _ Hloc)
        as (locations & group & location & _ & Hl & _).
      destruct (get_total "locationName" t (get_Ok_not_nullish _ _ _ Hws))
        as [name Hname].
      destruct (get_total "issueTime" records (get_Ok_not_nullish _ _ _ Hl))
        as [issue Hissue].
      unfold normalize. rewrite Hname, Hissue, Hws; cbn [bind find].
      rewrite Hfind; cbn [bind].
      destruct (negb (truthy wx));
        [eexists; split; [reflexivity | exact I] |].
      rewrite Ht; cbn [bind].
      destruct tm; try discriminate;
        (eexists; split; [reflexivity | exact I]).
    - pose proof (normalize_contained records t ws wx times Hws Hfind Ht)
        as Hc.
      destruct (normalize records t) as [wd | e |] eqn:Hnorm;
        [| eauto | contradiction].
      exfalso.
      destruct (normalize_Ok _ _ _ Hnorm)
        as (ws' & wx' & time' & Hws' & Hfind' & _ & Ht' & Hlen & Hat).
      rewrite Hws in Hws'. injection Hws' as <-.
      rewrite Hfind in Hfind'. injection Hfind' as <-.
      rewrite Ht in Ht'. injection Ht' as <-.
      apply Exists_exists in Hex. destruct Hex as (e & Hin & He).
      destruct (In_nth_error _ _ Hin) as [i Hi].
      assert (Hlt : i < List.length (forecasts wd)).
      { rewrite (Hlen _ eq_refl). apply nth_error_Some. congruence. }
      destruct (nth_error (forecasts wd) i) as [fc |] eqn:Hfc;
        [| apply nth_error_None in Hfc; lia].
      destruct (forecastAt_Ok _ _ _ _ (Hat _ _ Hfc))
        as (fc0 & fc1 & Hinit & _).
      destruct (initialForecast_periods _ _ _ Hinit)
        as (time & e' & Ht' & Hidx & Hs & _).
      rewrite Ht in Ht'. injection Ht' as <-. cbn in Hidx.
      rewrite Hi in Hidx. injection Hidx as <-.
      apply get_Ok_not_nullish in Hs. congruence. }
  destruct Hthrow as (e & Hnorm & He).
  apply thrown_in_try_is_500 with (e := e).
  - now rewrite (try_block_located _ _ _ Hloc), Hnorm.
  - intros r ->. exact He.
Qed.

Lemma broken_Wx_axis_is_500_witness :
  after_request (Resolved axisHoleDocument) = Responded serverError.
Proof.
  refine (broken_Wx_axis_is_500 axisHoleDocument _ _ _ _
            (VArr [entry "06:00" "09:00" (VStr "晴天"); VNull])
            eq_refl eq_refl eq_refl eq_refl _).
  right. eexists. split; [reflexivity |].
  right. left. reflexivity.
Defined.

End Behaviour.
